(** * Session and buffering engine of the transcription bot

    A shallow embedding of [core/transcription_logic.py]: the [Session]
    class, the [SessionManager] facade and the flush pipeline, followed by
    the properties of the specification proved about them.

    Python values are modelled as follows.
    - [int] (guild and user ids) is [Z].
    - [bytes] and [bytearray] are [list byte].
    - [str] is [string], one character per code point, which covers the
      code points below 256; the only place that looks inside a text is
      [strip], whose whitespace is Python's within that range.
    - [dict] is an insertion-ordered association list ([PyDict]): the
      order of the keys decides the order of the speakers in the combined
      transcript and the order of the flushes in [stop_recording], so an
      unordered finite map would lose what the code does.
    - A method that mutates [self] returns the new value; the session
      object that [get_or_create_session] hands out is the one stored in
      [sessions], so a mutation of it is written back under its key.
    - The two external collaborators of the flush pipeline (FFmpeg and the
      speech-to-text recorder) are arbitrary functions of the number of
      the pipeline run and of their input, [None] standing for a raised
      exception. *)

From Stdlib Require Import ZArith List String Ascii Bool Lia PeanoNat.
From Stdlib.Strings Require Import Byte.
From Stdlib.Numbers Require Import DecimalString.
From Stdlib.Numbers Require DecimalZ DecimalPos.
Import ListNotations.

Local Open Scope list_scope.

(** ** Python dictionaries *)

Module PyDict.

Section Dict.
Context {V : Type}.

Definition dict : Type := list (Z * V).

Definition empty : dict := [].

(** [d.get(k)] *)
Fixpoint get (d : dict) (k : Z) : option V :=
  match d with
  | [] => None
  | (k', v) :: r => if Z.eqb k k' then Some v else get r k
  end.

(** [d.get(k, dflt)] *)
Definition get_default (d : dict) (k : Z) (dflt : V) : V :=
  match get d k with
  | Some v => v
  | None => dflt
  end.

(** [k in d] *)
Definition contains (d : dict) (k : Z) : bool :=
  match get d k with
  | Some _ => true
  | None => false
  end.

(** [d[k] = v]: an existing key keeps its place, a new key goes last. *)
Fixpoint set (d : dict) (k : Z) (v : V) : dict :=
  match d with
  | [] => [(k, v)]
  | (k', v') :: r =>
      if Z.eqb k k' then (k, v) :: r else (k', v') :: set r k v
  end.

(** [del d[k]] *)
Definition del (d : dict) (k : Z) : dict :=
  filter (fun item => negb (Z.eqb k (fst item))) d.

(** [list(d.keys())] *)
Definition keys (d : dict) : list Z := map fst d.

(** No key occurs twice. *)
Definition wf (d : dict) : Prop := NoDup (keys d).
End Dict.

Arguments dict V : clear implicits.

End PyDict.

Import PyDict.

(** ** Python strings *)

Module PyStr.

Local Open Scope string_scope.

Definition nl : string := String (ascii_of_nat 10) EmptyString.

(** [str.isspace] on one code point below 256. *)
Definition isspace (c : ascii) : bool :=
  let n := nat_of_ascii c in
  ((9 <=? n)%nat && (n <=? 13)%nat)
  || ((28 <=? n)%nat && (n <=? 32)%nat)
  || (n =? 133)%nat || (n =? 160)%nat.

Fixpoint lstrip (s : string) : string :=
  match s with
  | EmptyString => EmptyString
  | String c r => if isspace c then lstrip r else s
  end.

Fixpoint rstrip (s : string) : string :=
  match s with
  | EmptyString => EmptyString
  | String c r =>
      match rstrip r with
      | EmptyString => if isspace c then EmptyString else String c EmptyString
      | r' => String c r'
      end
  end.

(** [s.strip()] *)
Definition strip (s : string) : string := rstrip (lstrip s).

(** [sep.join(l)] *)
Fixpoint join (sep : string) (l : list string) : string :=
  match l with
  | [] => ""
  | x :: r =>
      match r with
      | [] => x
      | _ :: _ => x ++ sep ++ join sep r
      end
  end.

(** [str(z)] for an [int]: its decimal writing. *)
Definition str (z : Z) : string := NilZero.string_of_int (Z.to_int z).

End PyStr.

Import PyStr.

Definition bytes : Type := list byte.

(** ** class Session *)

Record Session : Type := mkSession {
  is_recording : bool;
  user_transcripts : dict (list string);
  user_names : dict string;
  audio_buffers : dict bytes
}.

(** [Session()] *)
Definition Session_init : Session :=
  {| is_recording := false;
     user_transcripts := empty;
     user_names := empty;
     audio_buffers := empty |}.

Definition set_is_recording (s : Session) (b : bool) : Session :=
  {| is_recording := b;
     user_transcripts := user_transcripts s;
     user_names := user_names s;
     audio_buffers := audio_buffers s |}.

Definition set_user_transcripts (s : Session) (d : dict (list string)) : Session :=
  {| is_recording := is_recording s;
     user_transcripts := d;
     user_names := user_names s;
     audio_buffers := audio_buffers s |}.

Definition set_user_names (s : Session) (d : dict string) : Session :=
  {| is_recording := is_recording s;
     user_transcripts := user_transcripts s;
     user_names := d;
     audio_buffers := audio_buffers s |}.

Definition set_audio_buffers (s : Session) (d : dict bytes) : Session :=
  {| is_recording := is_recording s;
     user_transcripts := user_transcripts s;
     user_names := user_names s;
     audio_buffers := d |}.

(** [self.user_transcripts.setdefault(user_id, []).append(text)] *)
Definition append_final_line (s : Session) (user_id : Z) (text : string) : Session :=
  set_user_transcripts s
    (set (user_transcripts s) user_id
         (get_default (user_transcripts s) user_id [] ++ [text])).

(** [self.user_names.get(uid, f"User {uid}")] *)
Definition display_name (s : Session) (uid : Z) : string :=
  get_default (user_names s) uid ("User " ++ str uid)%string.

(** [f"{name}:\n{t}\n"] *)
Definition block (name t : string) : string :=
  (name ++ ":" ++ nl ++ t ++ nl)%string.

(** The list [lines] that the two nested loops of
    [get_combined_transcript] build with [lines.append]. *)
Definition transcript_lines (s : Session) : list string :=
  fold_left
    (fun lines (item : Z * list string) =>
       let (uid, texts) := item in
       let name := display_name s uid in
       fold_left (fun lines t => lines ++ [block name t]) texts lines)
    (user_transcripts s) [].

(** A method of [Session] returns the session it leaves behind with its
    result; [get_combined_transcript] assigns to no attribute. *)
Definition get_combined_transcript (s : Session) : Session * string :=
  let lines := transcript_lines s in
  let transcript := join nl lines in
  (s, transcript).

(** ** The flush pipeline and its collaborators *)

(** How one run of the pipeline ended: [convert_pcm_to_wav] raised, the
    recorder raised, or the recorder returned [text]. *)
Inductive outcome : Type :=
| ConversionFailed
| TranscriptionFailed
| Transcribed (text : string).

(** One run of the pipeline: the speaker, the block written to the
    transient PCM file, and how the run ended. *)
Record PipelineRun : Type := mkRun {
  run_user : Z;
  run_pcm : bytes;
  run_outcome : outcome
}.

(** The world outside the manager: the runs of the pipeline so far, in
    the order they were made. *)
Definition World : Type := list PipelineRun.

(** ** class SessionManager *)

Record SessionManager : Type := mkManager {
  sessions : dict Session
}.

(** [SessionManager()] *)
Definition SessionManager_init : SessionManager :=
  {| sessions := empty |}.

(** The session object is shared with [self.sessions]: what a method did
    to it is what [self.sessions[guild_id]] holds afterwards. *)
Definition store_session (self : SessionManager) (guild_id : Z) (session : Session)
  : SessionManager :=
  {| sessions := set (sessions self) guild_id session |}.

Definition get_or_create_session (self : SessionManager) (guild_id : Z)
  : SessionManager * Session :=
  match get (sessions self) guild_id with
  | Some session => (self, session)
  | None => (store_session self guild_id Session_init, Session_init)
  end.

Definition remove_session (self : SessionManager) (guild_id : Z) : SessionManager :=
  if contains (sessions self) guild_id
  then {| sessions := del (sessions self) guild_id |}
  else self.

Definition start_recording (self : SessionManager) (guild_id : Z)
  : SessionManager * Session :=
  let (self, session) := get_or_create_session self guild_id in
  let session := set_is_recording session true in
  (store_session self guild_id session, session).

Definition process_audio_chunk (self : SessionManager) (guild_id user_id : Z)
    (pcm_data : bytes) : SessionManager :=
  let (self, session) := get_or_create_session self guild_id in
  if negb (is_recording session) then self
  else
    (* session.audio_buffers.setdefault(user_id, bytearray()).extend(pcm_data) *)
    let buffers := audio_buffers session in
    let session :=
      set_audio_buffers session
        (set buffers user_id (get_default buffers user_id [] ++ pcm_data)) in
    store_session self guild_id session.

Definition set_user_name (self : SessionManager) (guild_id user_id : Z)
    (display_name : string) : SessionManager :=
  let (self, session) := get_or_create_session self guild_id in
  let session := set_user_names session (set (user_names session) user_id display_name) in
  store_session self guild_id session.

(** ** Reading the state of a manager *)

(** The flag that [get_or_create_session] finds: a session made on the
    spot is not recording. *)
Definition recording (self : SessionManager) (g : Z) : bool :=
  match get (sessions self) g with
  | Some s => is_recording s
  | None => false
  end.

(** The buffer of a speaker, if there is one. *)
Definition buffer (self : SessionManager) (g u : Z) : option bytes :=
  match get (sessions self) g with
  | Some s => get (audio_buffers s) u
  | None => None
  end.

(** The bytes waiting in a speaker's buffer. *)
Definition pending_of (s : Session) (u : Z) : bytes :=
  get_default (audio_buffers s) u [].

Definition pending (self : SessionManager) (g u : Z) : bytes :=
  match get (sessions self) g with
  | Some s => pending_of s u
  | None => []
  end.

(** The speakers that have a buffer in the session of [g]. *)
Definition buffer_keys (self : SessionManager) (g : Z) : list Z :=
  match get (sessions self) g with
  | Some s => keys (audio_buffers s)
  | None => []
  end.

(** The text segments of a speaker. *)
Definition segments (s : Session) (u : Z) : list string :=
  get_default (user_transcripts s) u [].

(** The blocks handed to the pipeline for speaker [u], in flush order. *)
Definition handed (w : World) (u : Z) : list bytes :=
  map run_pcm (filter (fun r => Z.eqb (run_user r) u) w).

Section Collaborators.

(** [audio_utils.convert_pcm_to_wav] and
    [AudioToTextRecorder(model="tiny").transcribe_file], at the [n]-th
    run of the pipeline; [None] is an exception. *)
Variable convert_pcm_to_wav : nat -> bytes -> option bytes.
Variable transcribe_file : nat -> bytes -> option string.

Definition _flush_buffer (w : World) (session : Session) (user_id : Z)
  : World * Session :=
  let buffer_data := get_default (audio_buffers session) user_id [] in
  match buffer_data with
  | [] => (w, session)
  | _ :: _ =>
      let session :=
        set_audio_buffers session (set (audio_buffers session) user_id []) in
      let n := List.length w in
      match convert_pcm_to_wav n buffer_data with
      | None =>
          (w ++ [mkRun user_id buffer_data ConversionFailed], session)
      | Some wav =>
          match transcribe_file n wav with
          | None =>
              (w ++ [mkRun user_id buffer_data TranscriptionFailed], session)
          | Some text =>
              let transcript_text := strip text in
              (w ++ [mkRun user_id buffer_data (Transcribed text)],
               append_final_line session user_id transcript_text)
          end
      end
  end.

(** [for user_id in list(session.audio_buffers.keys()):
       self._flush_buffer(session, user_id)] *)
Definition flush_all (w : World) (session : Session) : World * Session :=
  fold_left
    (fun (st : World * Session) user_id => _flush_buffer (fst st) (snd st) user_id)
    (keys (audio_buffers session)) (w, session).

Definition stop_recording (w : World) (self : SessionManager) (guild_id : Z)
  : World * SessionManager * string :=
  let (self, session) := get_or_create_session self guild_id in
  let session := set_is_recording session false in
  let (w, session) := flush_all w session in
  let (session, transcript) := get_combined_transcript session in
  (w, store_session self guild_id session, transcript).

(** The inner loop of [_buffer_flusher]: only a buffer that holds bytes
    is flushed. *)
Definition flush_nonempty (w : World) (session : Session) : World * Session :=
  fold_left
    (fun (st : World * Session) user_id =>
       match get (audio_buffers (snd st)) user_id with
       | Some (_ :: _) => _flush_buffer (fst st) (snd st) user_id
       | _ => st
       end)
    (keys (audio_buffers session)) (w, session).

(** One round of the [while True] loop of [_buffer_flusher], between two
    sleeps. *)
Definition _buffer_flusher (w : World) (self : SessionManager)
  : World * SessionManager :=
  fold_left
    (fun (st : World * SessionManager) guild_id =>
       match get (sessions (snd st)) guild_id with
       | Some session =>
           if is_recording session then
             let (w, session) := flush_nonempty (fst st) session in
             (w, store_session (snd st) guild_id session)
           else st
       | None => st
       end)
    (keys (sessions self)) (w, self).

(** ** Runs of the manager *)

(** The calls the manager receives: its five public methods from the
    request path, and from the flusher thread one flush of one speaker
    of an existing session ([FlushBuffer]) or a whole round
    ([FlusherRound]). *)
Inductive op : Type :=
| StartRecording (guild_id : Z)
| StopRecording (guild_id : Z)
| ProcessAudioChunk (guild_id user_id : Z) (pcm_data : bytes)
| SetUserName (guild_id user_id : Z) (display_name : string)
| RemoveSession (guild_id : Z)
| FlushBuffer (guild_id user_id : Z)
| FlusherRound.

Definition step (st : World * SessionManager) (o : op) : World * SessionManager :=
  let (w, self) := st in
  match o with
  | StartRecording g => (w, fst (start_recording self g))
  | StopRecording g => fst (stop_recording w self g)
  | ProcessAudioChunk g u pcm => (w, process_audio_chunk self g u pcm)
  | SetUserName g u name => (w, set_user_name self g u name)
  | RemoveSession g => (w, remove_session self g)
  | FlushBuffer g u =>
      match get (sessions self) g with
      | Some session =>
          let (w, session) := _flush_buffer w session u in
          (w, store_session self g session)
      | None => (w, self)
      end
  | FlusherRound => _buffer_flusher w self
  end.

Definition run_from (st : World * SessionManager) (tr : list op)
  : World * SessionManager :=
  fold_left step tr st.

(** A run from a new manager, before any run of the pipeline. *)
Definition run (tr : list op) : World * SessionManager :=
  run_from ([], SessionManager_init) tr.

(** ** What a run lets one observe *)

(** What one run of the pipeline yields on a block. *)
Definition pipeline_outcome (n : nat) (pcm : bytes) : outcome :=
  match convert_pcm_to_wav n pcm with
  | None => ConversionFailed
  | Some wav =>
      match transcribe_file n wav with
      | None => TranscriptionFailed
      | Some text => Transcribed text
      end
  end.

(** The chunks of speaker [u] of guild [g] that [process_audio_chunk]
    received, along the run of [tr] from [st], at a moment when the
    session's [is_recording] was true, in call order. *)
Fixpoint ingested_chunks (st : World * SessionManager) (tr : list op) (g u : Z)
  : list bytes :=
  match tr with
  | [] => []
  | o :: tr' =>
      match o with
      | ProcessAudioChunk g' u' pcm =>
          if recording (snd st) g' && Z.eqb g' g && Z.eqb u' u
          then [pcm] else []
      | _ => []
      end ++ ingested_chunks (step st o) tr' g u
  end.

(** Since the session of [g] was last created, a chunk of speaker [u]
    was accepted: some call of [process_audio_chunk] for [g] and [u]
    found [is_recording] true, and [g] was not removed afterwards. *)
Definition accepted_call (tr : list op) (g u : Z) : Prop :=
  exists tr1 pcm tr2,
    tr = tr1 ++ ProcessAudioChunk g u pcm :: tr2
    /\ recording (snd (run tr1)) g = true
    /\ ~ In (RemoveSession g) tr2.

End Collaborators.

(** The calls that concern one session: those of [op] with the guild left
    out, and no removal. *)
Inductive call : Type :=
| Start
| Stop
| Ingest (user_id : Z) (pcm_data : bytes)
| Name (user_id : Z) (display_name : string)
| Flush (user_id : Z)
| Round.

Definition on (g : Z) (c : call) : op :=
  match c with
  | Start => StartRecording g
  | Stop => StopRecording g
  | Ingest u pcm => ProcessAudioChunk g u pcm
  | Name u name => SetUserName g u name
  | Flush u => FlushBuffer g u
  | Round => FlusherRound
  end.

(** ** The combined transcript as the specification words it *)

(** The label of a speaker: the display name, or a placeholder made from
    the speaker id. *)
Definition displayNameOrFallback (s : Session) (speakerId : Z) : string :=
  match get (user_names s) speakerId with
  | Some name => name
  | None => ("User " ++ str speakerId)%string
  end.

(** The pairs (label, segment): speakers in the order of the transcript
    mapping, the segments of one speaker in the order they were appended. *)
Definition labelled_segments (s : Session) : list (string * string) :=
  flat_map
    (fun item : Z * list string =>
       map (fun segment => (displayNameOrFallback s (fst item), segment)) (snd item))
    (user_transcripts s).

(** One block per pair, a blank line between two blocks. *)
Fixpoint render (blocks : list (string * string)) : string :=
  match blocks with
  | [] => EmptyString
  | (label, segment) :: rest =>
      let b := (label ++ ":" ++ nl ++ segment ++ nl)%string in
      match rest with
      | [] => b
      | _ :: _ => (b ++ nl ++ render rest)%string
      end
  end.

Definition combinedTranscript (s : Session) : string :=
  render (labelled_segments s).

(** The lines of the transcript, each with the speaker it is a block of. *)
Definition speaker_lines (s : Session) : list (Z * string) :=
  flat_map
    (fun item : Z * list string =>
       map (fun t => (fst item, block (display_name s (fst item)) t)) (snd item))
    (user_transcripts s).

(** Segment [t] is in the transcript mapping under speaker [u]. *)
Definition has_text (s : Session) (u : Z) (t : string) : Prop :=
  exists texts, In (u, texts) (user_transcripts s) /\ In t texts.

(** Speaker [u] has a segment in the transcript mapping. *)
Definition has_segment (s : Session) (u : Z) : Prop :=
  exists t, has_text s u t.

(** What [get_or_create_session] returns for [g]. *)
Definition session_or_init (self : SessionManager) (g : Z) : Session :=
  match get (sessions self) g with
  | Some s => s
  | None => Session_init
  end.

(** What the [try] block of [_flush_buffer] does to the session once the
    run of the pipeline has ended. *)
Definition apply_outcome (s : Session) (u : Z) (o : outcome) : Session :=
  match o with
  | Transcribed text => append_final_line s u (strip text)
  | ConversionFailed | TranscriptionFailed => s
  end.

(** [advances (w, s) (w', s')]: what any number of flushes of one session
    may do to the world and to the session. The flag, the names and the
    speakers with a buffer stay; the world gains runs; the bytes that left
    a buffer are those of the new runs of its speaker; a non-empty buffer
    is still there or was handed over as one block; segments are kept, and
    a segment is new exactly by a new run that returned its text; the
    transcript mapping still holds no key twice. *)
Definition advances (a b : World * Session) : Prop :=
  let (w, s) := a in
  let (w', s') := b in
  is_recording s' = is_recording s
  /\ user_names s' = user_names s
  /\ keys (audio_buffers s') = keys (audio_buffers s)
  /\ exists new,
       w' = w ++ new
       /\ (forall u, List.concat (handed new u) ++ pending_of s' u = pending_of s u)
       /\ (forall u, pending_of s u <> [] ->
                     pending_of s' u = pending_of s u
                     \/ exists r, In r new /\ run_user r = u
                                  /\ run_pcm r = pending_of s u)
       /\ (forall u t, has_text s u t -> has_text s' u t)
       /\ (forall r text, In r new -> run_outcome r = Transcribed text ->
                          has_text s' (run_user r) (strip text))
       /\ (forall u t, has_text s' u t ->
                       has_text s u t
                       \/ exists r text, In r new /\ run_user r = u
                                         /\ run_outcome r = Transcribed text
                                         /\ t = strip text)
     /\ (wf (user_transcripts s) -> wf (user_transcripts s')).

(** The bytes handed over for [u] so far, followed by those waiting in
    the buffer of [u] in the session of [g]. *)
Definition total (st : World * SessionManager) (g u : Z) : bytes :=
  List.concat (handed (fst st) u) ++ pending (snd st) g u.

(** No dictionary of the session, and none of the manager, holds a key
    twice: what [get] finds is all there is. *)
Definition session_wf (s : Session) : Prop :=
  wf (user_transcripts s) /\ wf (user_names s) /\ wf (audio_buffers s).

Definition manager_wf (self : SessionManager) : Prop :=
  wf (sessions self)
  /\ forall g s, get (sessions self) g = Some s -> session_wf s.

(** The manager holds no session but, at most, that of [g]. *)
Definition only_session (g : Z) (self : SessionManager) : Prop :=
  forall g', g' <> g -> get (sessions self) g' = None.

(** Every segment stored in a session of the manager is the trimmed text
    of a run of the pipeline for its speaker. *)
Definition texts_from_runs (st : World * SessionManager) : Prop :=
  forall g s u t,
    get (sessions (snd st)) g = Some s ->
    has_text s u t ->
    exists r text,
      In r (fst st) /\ run_user r = u
      /\ run_outcome r = Transcribed text /\ t = strip text.

(** A session that holds no audio and no text. *)
Definition nothing_buffered (s : Session) : Prop :=
  forall u, get_default (audio_buffers s) u [] = [].

Definition nothing_transcribed (s : Session) : Prop :=
  Forall (fun item : Z * list string => snd item = []) (user_transcripts s).

(** ** What the log of the pipeline tells of a session *)

(** What one run adds to a transcript mapping: the trimmed text of a run
    that returned one, at the end of its speaker's segments. *)
Definition record_run (d : dict (list string)) (r : PipelineRun)
  : dict (list string) :=
  match run_outcome r with
  | Transcribed text =>
      set d (run_user r) (get_default d (run_user r) [] ++ [strip text])
  | ConversionFailed | TranscriptionFailed => d
  end.

(** The trimmed texts that the runs of [w] returned for speaker [u], in
    the order of the runs. *)
Definition texts_of (w : World) (u : Z) : list string :=
  flat_map
    (fun r =>
       if Z.eqb (run_user r) u then
         match run_outcome r with
         | Transcribed text => [strip text]
         | ConversionFailed | TranscriptionFailed => []
         end
       else [])
    w.

(** [flushed (w, s) (w', s')]: flushes of one session added runs, none on
    an empty block, and the transcript mapping is the one before with
    these runs recorded in their order. *)
Definition flushed (a b : World * Session) : Prop :=
  exists new,
    fst b = fst a ++ new
    /\ Forall (fun r => run_pcm r <> []) new
    /\ user_transcripts (snd b)
       = fold_left record_run new (user_transcripts (snd a)).

(** No buffer of the session of [g] holds a byte. *)
Definition drained (self : SessionManager) (g : Z) : Prop :=
  forall u, pending self g u = [].

(** [grows s s']: session [s'] has the segments of [s], in their order,
    with what came after them, and the speakers with a buffer of [s], in
    their order, with those who came after them. *)
Definition grows (s s' : Session) : Prop :=
  (forall u, exists extra, segments s' u = segments s u ++ extra)
  /\ exists extra,
       keys (audio_buffers s') = keys (audio_buffers s) ++ extra.

(** ** core/summarizer.py *)

(** What the [try] block of [summarize_transcript] meets: an exception,
    raised by [openai.ChatCompletion.create] or while the answer is read,
    with its text [e], or an answer with the contents of its choices. *)
Inductive completion : Type :=
| CompletionRaised (e : string)
| CompletionChoices (contents : list string).

(** The [messages] of the request, as (role, content) pairs. *)
Definition chat_messages (transcript : string) : list (string * string) :=
  [("system"%string,
    "You are a helpful assistant that summarizes conversations."%string);
   ("user"%string,
    ("Summarize the following conversation:" ++ nl ++ transcript)%string)].

Section Summarizer.

(** [openai.ChatCompletion.create] with the model, temperature and token
    limit of the source, as a function of the messages. *)
Variable create : list (string * string) -> completion.

(** The result comes with the requests that were made. *)
Definition summarize_transcript (transcript : string)
  : list (list (string * string)) * string :=
  match transcript with
  | EmptyString => ([], "No conversation to summarize."%string)
  | String _ _ =>
      let messages := chat_messages transcript in
      match create messages with
      | CompletionChoices (content :: _) => ([messages], strip content)
      | CompletionChoices [] => ([messages], "No summary available."%string)
      | CompletionRaised e =>
          ([messages], ("Error generating summary: " ++ e)%string)
      end
  end.

End Summarizer.

(** ** integrations/discord_bot.py: the commands that end a session *)

(** The calls a command makes to Discord. Each one returns or raises. *)
Inductive discord_call : Type :=
| Defer
| FollowupSend (content : string)
| ChannelSend (content : string)
| ResponseSend (content : string)
| Disconnect.

(** What a command leaves: the calls to Discord it attempted, in order,
    the last of which may have raised; whether an exception left the
    command; the requests made to the summarizer; the world and the
    manager. *)
Record Handled : Type := mkHandled {
  attempted : list discord_call;
  escaped : bool;
  requests : list (list (string * string));
  world_after : World;
  manager_after : SessionManager
}.

Section Commands.

Variable convert_pcm_to_wav : nat -> bytes -> option bytes.
Variable transcribe_file : nat -> bytes -> option string.
Variable create : list (string * string) -> completion.

(** Whether the [n]-th call of the command to Discord returns. *)
Variable returns : nat -> discord_call -> bool.

(** Calls awaited one after the other: the first that raises ends them. *)
Fixpoint attempt_all (calls log : list discord_call) : list discord_call * bool :=
  match calls with
  | [] => (log, true)
  | c :: rest =>
      if returns (List.length log) c
      then attempt_all rest (log ++ [c])
      else (log ++ [c], false)
  end.

(** [TranscriptionCog.stop] *)
Definition stop_command (w : World) (self : SessionManager) (guild_id : Z)
  : Handled :=
  if negb (returns 0 Defer) then mkHandled [Defer] true [] w self
  else
    (* try: *)
    let '(w, self, transcript) :=
      stop_recording convert_pcm_to_wav transcribe_file w self guild_id in
    let '(log, ok, asked) :=
      match strip transcript with
      | EmptyString =>
          (attempt_all [FollowupSend "No transcript available."] [Defer], [])
      | String _ _ =>
          let (log, ok) :=
            attempt_all [FollowupSend "Transcript:"; ChannelSend transcript]
              [Defer] in
          if ok then
            let (asked, summary) := summarize_transcript create transcript in
            let summary :=
              match strip summary with
              | EmptyString => "No summary available."%string
              | String _ _ => summary
              end in
            (attempt_all [ChannelSend ("Summary:" ++ nl ++ summary)] log, asked)
          else (log, false, [])
      end in
    if ok then mkHandled log false asked w self
    else
      (* except Exception: *)
      let (log, ok) :=
        attempt_all [ResponseSend "Error stopping transcription."] log in
      mkHandled log (negb ok) asked w self.

(** [TranscriptionCog.leave]; [voice_client] tells whether
    [interaction.guild.voice_client] is set. *)
Definition leave_command (voice_client : bool) (w : World)
    (self : SessionManager) (guild_id : Z) : Handled :=
  (* try: *)
  let '(log, ok, self) :=
    if voice_client then
      let (log, ok) := attempt_all [Disconnect] [] in
      if ok then
        let self := remove_session self guild_id in
        (attempt_all [ResponseSend "Left voice channel."] log, self)
      else (log, false, self)
    else
      (attempt_all [ResponseSend "Not connected to any voice channel."] [], self)
  in
  if ok then mkHandled log false [] w self
  else
    (* except Exception: *)
    let (log, ok) :=
      attempt_all [ResponseSend "Error leaving the voice channel."] log in
    mkHandled log (negb ok) [] w self.

(** [TranscriptionCog.record] *)
Definition record_command (w : World) (self : SessionManager) (guild_id : Z)
  : Handled :=
  (* try: *)
  let self := fst (start_recording self guild_id) in
  let (log, ok) := attempt_all [ResponseSend "Recording started."] [] in
  if ok then mkHandled log false [] w self
  else
    (* except Exception: *)
    let (log, ok) :=
      attempt_all [ResponseSend "Error starting recording."] log in
    mkHandled log (negb ok) [] w self.

End Commands.

(** The text holds a character that is not whitespace. *)
Definition has_ink (s : string) : Prop :=
  exists a c b, s = (a ++ String c b)%string /\ isspace c = false.

(** The guild a call is for; a round of the flusher is for all. *)
Definition target (o : op) : option Z :=
  match o with
  | StartRecording g | StopRecording g | ProcessAudioChunk g _ _
  | SetUserName g _ _ | RemoveSession g | FlushBuffer g _ => Some g
  | FlusherRound => None
  end.

(** The buffers that hold bytes, in the order of the dictionary. *)
Definition waiting (d : dict bytes) : list (Z * bytes) :=
  filter (fun item => match snd item with [] => false | _ :: _ => true end) d.

(** A call that is not a start, a naming or a removal for guild [g]. *)
Definition leaves_asleep (g : Z) (o : op) : Prop :=
  match o with
  | StartRecording g0 | SetUserName g0 _ _ | RemoveSession g0 => g0 <> g
  | StopRecording _ | ProcessAudioChunk _ _ _ | FlushBuffer _ _
  | FlusherRound => True
  end.

(** The segments a run of the pipeline adds for its speaker: the trimmed
    text when the recorder returned one, nothing when a step raised. *)
Definition said (o : outcome) : list string :=
  match o with
  | Transcribed text => [strip text]
  | ConversionFailed | TranscriptionFailed => []
  end.

(** [x in s] for two [str]: [x] is a substring of [s]. *)
Definition occurs_in (x s : string) : Prop :=
  exists pre post, s = (pre ++ x ++ post)%string.

(** ** A small call *)

Module Example.

(** FFmpeg succeeds, or fails. *)
Definition converts : nat -> bytes -> option bytes := fun _ pcm => Some pcm.

(** The recorder hears words, or only silence. *)
Definition hears_hello : nat -> bytes -> option string :=
  fun _ _ => Some " hello "%string.
Definition hears_blank : nat -> bytes -> option string :=
  fun _ _ => Some "  "%string.

Definition chunk : bytes := [x01; x02].

(** A recording session in which speaker 7 has two bytes waiting. *)
Definition talking : Session :=
  {| is_recording := true;
     user_transcripts := empty;
     user_names := empty;
     audio_buffers := [(7%Z, chunk)] |}.

(** A session that was started and never heard anything; speaker 7 has
    a buffer, which a flush emptied, and no text. *)
Definition quiet : Session :=
  {| is_recording := true;
     user_transcripts := empty;
     user_names := [(7%Z, "Ann"%string)];
     audio_buffers := [(7%Z, [])] |}.



Definition guild : Z := 1%Z.

Definition manager_of (s : Session) : SessionManager :=
  {| sessions := [(guild, s)] |}.

(** Guild 1 starts recording and speaker 7 sends one chunk. *)
Definition one_chunk : list op :=
  [StartRecording guild; ProcessAudioChunk guild 7%Z chunk].

End Example.

(** * Properties *)

(** ** Dictionaries *)

Module DictFacts.

Section Facts.
Context {V : Type}.
Implicit Types (d : dict V) (k : Z) (v : V).

Lemma get_set_same d k v : get (set d k v) k = Some v.
Proof.
  induction d as [|[k' v'] r IH]; simpl.
  - now rewrite Z.eqb_refl.
  - destruct (Z.eqb k k') eqn:E; simpl.
    + now rewrite Z.eqb_refl.
    + now rewrite E.
Qed.

Lemma get_set_other d k k' v : k' <> k -> get (set d k v) k' = get d k'.
Proof.
  intros Hne. induction d as [|[k0 v0] r IH]; simpl.
  - destruct (Z.eqb_spec k' k); [contradiction | reflexivity].
  - destruct (Z.eqb_spec k k0) as [->|Hk]; simpl.
    + destruct (Z.eqb_spec k' k0); [contradiction | reflexivity].
    + destruct (Z.eqb_spec k' k0); [reflexivity | exact IH].
Qed.

Lemma get_set d k k' v :
  get (set d k v) k' = if Z.eqb k' k then Some v else get d k'.
Proof.
  destruct (Z.eqb_spec k' k) as [->|Hne].
  - apply get_set_same.
  - now apply get_set_other.
Qed.

Lemma get_default_set d k k' v dflt :
  get_default (set d k v) k' dflt
  = if Z.eqb k' k then v else get_default d k' dflt.
Proof.
  unfold get_default. rewrite get_set. now destruct (Z.eqb k' k).
Qed.

Lemma get_some_in_keys d k v : get d k = Some v -> In k (keys d).
Proof.
  induction d as [|[k' v'] r IH]; simpl; [discriminate|].
  destruct (Z.eqb_spec k k') as [->|Hk]; intros H.
  - now left.
  - right. now apply IH.
Qed.

Lemma in_keys_get d k : In k (keys d) -> exists v, get d k = Some v.
Proof.
  induction d as [|[k' v'] r IH]; simpl; [contradiction|].
  intros [->|Hin].
  - rewrite Z.eqb_refl. now exists v'.
  - destruct (Z.eqb k k'); [now exists v' | now apply IH].
Qed.

Lemma get_none_not_in_keys d k : get d k = None <-> ~ In k (keys d).
Proof.
  split.
  - intros Hn Hin. apply in_keys_get in Hin as [v Hv]. congruence.
  - intros Hn. destruct (get d k) eqn:E; [|reflexivity].
    exfalso. apply Hn. eapply get_some_in_keys; eauto.
Qed.

Lemma get_some_in d k v : get d k = Some v -> In (k, v) d.
Proof.
  induction d as [|[k' v'] r IH]; simpl; [discriminate|].
  destruct (Z.eqb_spec k k') as [->|Hk]; intros H.
  - injection H as ->. now left.
  - right. now apply IH.
Qed.

(** An assignment to a key that is there keeps the keys as they are. *)
Lemma keys_set_present d k v : In k (keys d) -> keys (set d k v) = keys d.
Proof.
  induction d as [|[k' v'] r IH]; simpl; [contradiction|].
  intros Hin. destruct (Z.eqb_spec k k') as [->|Hk]; simpl.
  - reflexivity.
  - f_equal. apply IH. destruct Hin as [E|Hin]; [congruence | exact Hin].
Qed.

(** An assignment to a new key puts it last. *)
Lemma set_absent d k v : get d k = None -> set d k v = d ++ [(k, v)].
Proof.
  induction d as [|[k' v'] r IH]; simpl; [reflexivity|].
  destruct (Z.eqb k k'); [discriminate|].
  intros H. now rewrite IH.
Qed.

Lemma keys_set d k v :
  keys (set d k v) = if contains d k then keys d else keys d ++ [k].
Proof.
  unfold contains. destruct (get d k) eqn:E.
  - apply keys_set_present. eapply get_some_in_keys; eauto.
  - rewrite set_absent by assumption. unfold keys. now rewrite map_app.
Qed.

Lemma in_set d k v k' v' :
  In (k', v') (set d k v) -> (k' = k /\ v' = v) \/ In (k', v') d.
Proof.
  induction d as [|[k0 v0] r IH]; simpl.
  - intros [E|[]]. injection E as <- <-. now left.
  - destruct (Z.eqb k k0); simpl.
    + intros [E|Hin]; [injection E as <- <-; now left | right; now right].
    + intros [E|Hin]; [right; now left|].
      destruct (IH Hin) as [?|?]; [now left | right; now right].
Qed.

Lemma get_del_same d k : get (del d k) k = None.
Proof.
  apply get_none_not_in_keys. unfold keys, del. intros Hin.
  apply in_map_iff in Hin as [[k' v'] [Hk Hin]]. simpl in Hk. subst k'.
  apply filter_In in Hin as [_ Hf]. simpl in Hf.
  now rewrite Z.eqb_refl in Hf.
Qed.

Lemma get_del_other d k k' : k' <> k -> get (del d k) k' = get d k'.
Proof.
  intros Hne. unfold del. induction d as [|[k0 v0] r IH]; simpl; [reflexivity|].
  destruct (Z.eqb_spec k k0) as [->|Hk]; simpl.
  - destruct (Z.eqb_spec k' k0); [contradiction | exact IH].
  - destruct (Z.eqb k' k0); [reflexivity | exact IH].
Qed.

Lemma in_keys_set d k v x : In x (keys (set d k v)) -> x = k \/ In x (keys d).
Proof.
  rewrite keys_set. destruct (contains d k); [now right|].
  intros H. apply in_app_or in H as [H|[<-|[]]]; [now right | now left].
Qed.

Lemma wf_set d k v : wf d -> wf (set d k v).
Proof.
  unfold wf. induction d as [|[k' v'] r IH]; simpl.
  - intros _. repeat constructor. intros [].
  - intros H. inversion H as [|? ? Hnotin Hr]; subst.
    destruct (Z.eqb_spec k k') as [->|Hne]; simpl.
    + now constructor.
    + constructor; [|now apply IH].
      intros Hin. apply in_keys_set in Hin as [E|Hin]; [congruence | contradiction].
Qed.

Lemma in_keys_del d k x : In x (keys (del d k)) -> In x (keys d).
Proof.
  unfold keys, del. rewrite !in_map_iff.
  intros [item [E Hin]]. apply filter_In in Hin as [Hin _]. now exists item.
Qed.

Lemma wf_del d k : wf d -> wf (del d k).
Proof.
  unfold wf. induction d as [|[k' v'] r IH]; simpl; [auto|].
  intros H. inversion H as [|? ? Hnotin Hr]; subst.
  destruct (Z.eqb k k'); simpl; [now apply IH|].
  constructor; [|now apply IH].
  intros Hin. apply Hnotin. now apply in_keys_del in Hin.
Qed.

(** Without a repeated key, every entry is the one [get] finds. *)
Lemma wf_in_get d k v : wf d -> In (k, v) d -> get d k = Some v.
Proof.
  unfold wf. induction d as [|[k' v'] r IH]; simpl; [contradiction|].
  intros H. inversion H as [|? ? Hnotin Hr]; subst.
  intros [E|Hin].
  - injection E as -> ->. now rewrite Z.eqb_refl.
  - destruct (Z.eqb_spec k k') as [->|Hne]; [|now apply IH].
    exfalso. apply Hnotin. change (In (fst (k', v)) (map fst r)).
    now apply in_map.
Qed.

Lemma del_absent d k : get d k = None -> del d k = d.
Proof.
  unfold del. induction d as [|[k0 v0] r IH]; simpl; [reflexivity|].
  destruct (Z.eqb k k0); simpl; [discriminate|].
  intros H. now rewrite IH.
Qed.
End Facts.

End DictFacts.

Import DictFacts.

(** ** The combined transcript *)

Module TranscriptFacts.

Lemma inner_loop name texts lines :
  fold_left (fun lines t => lines ++ [block name t]) texts lines
  = lines ++ map (block name) texts.
Proof.
  revert lines. induction texts as [|t r IH]; intros lines; simpl.
  - now rewrite app_nil_r.
  - rewrite IH, <- app_assoc. reflexivity.
Qed.

(** The two loops visit the mapping in its order and each speaker's
    segments in theirs. *)
Lemma transcript_lines_flat_map s :
  transcript_lines s
  = flat_map
      (fun item : Z * list string =>
         map (block (display_name s (fst item))) (snd item))
      (user_transcripts s).
Proof.
  unfold transcript_lines.
  set (g := fun item : Z * list string =>
              map (block (display_name s (fst item))) (snd item)).
  enough (H : forall d acc,
             fold_left
               (fun lines (item : Z * list string) =>
                  let (uid, texts) := item in
                  let name := display_name s uid in
                  fold_left (fun lines t => lines ++ [block name t]) texts lines)
               d acc
             = acc ++ flat_map g d)
    by apply (H _ []).
  induction d as [|[uid texts] r IH]; intros acc; simpl.
  - now rewrite app_nil_r.
  - rewrite IH, inner_loop, <- app_assoc. reflexivity.
Qed.

Lemma speaker_lines_erase s : map snd (speaker_lines s) = transcript_lines s.
Proof.
  rewrite transcript_lines_flat_map. unfold speaker_lines.
  induction (user_transcripts s) as [|[uid texts] r IH]; simpl; [reflexivity|].
  rewrite map_app, IH, map_map. reflexivity.
Qed.

Lemma display_name_fallback s u : display_name s u = displayNameOrFallback s u.
Proof.
  unfold display_name, displayNameOrFallback, get_default.
  now destruct (get (user_names s) u).
Qed.

Lemma transcript_lines_labelled s :
  transcript_lines s
  = map (fun p => block (fst p) (snd p)) (labelled_segments s).
Proof.
  rewrite transcript_lines_flat_map. unfold labelled_segments.
  induction (user_transcripts s) as [|[uid texts] r IH]; simpl; [reflexivity|].
  rewrite map_app, IH, map_map. simpl.
  now rewrite display_name_fallback.
Qed.

Lemma join_blocks bs :
  join nl (map (fun p => block (fst p) (snd p)) bs) = render bs.
Proof.
  induction bs as [|[label segment] rest IH]; [reflexivity|].
  destruct rest as [|p rest'].
  - reflexivity.
  - change (render ((label, segment) :: p :: rest'))
      with ((label ++ ":" ++ nl ++ segment ++ nl) ++ nl ++ render (p :: rest'))%string.
    rewrite <- IH. reflexivity.
Qed.

Lemma segments_append s u t u' :
  segments (append_final_line s u t) u'
  = if Z.eqb u' u then segments s u ++ [t] else segments s u'.
Proof.
  unfold segments, append_final_line. simpl. apply get_default_set.
Qed.

Lemma in_segments_has_text s u t : In t (segments s u) -> has_text s u t.
Proof.
  unfold segments, get_default, has_text.
  destruct (get (user_transcripts s) u) as [texts|] eqn:E; [|contradiction].
  intros Hin. exists texts. split; [now apply get_some_in | exact Hin].
Qed.

Lemma in_speaker_lines s u line :
  In (u, line) (speaker_lines s)
  <-> exists t, has_text s u t /\ line = block (display_name s u) t.
Proof.
  unfold speaker_lines, has_text. rewrite in_flat_map. split.
  - intros [[uid texts] [Hin Hl]]. simpl in Hl.
    apply in_map_iff in Hl as [t [E Ht]]. injection E as <- <-.
    exists t. split; [now exists texts | reflexivity].
  - intros [t [[texts [Hin Ht]] ->]]. exists (u, texts). split; [exact Hin|].
    simpl. apply in_map_iff. now exists t.
Qed.

Lemma has_segment_speaker_lines s u :
  In u (map fst (speaker_lines s)) <-> has_segment s u.
Proof.
  rewrite in_map_iff. split.
  - intros [[u' line] [E Hin]]. simpl in E. subst u'.
    apply in_speaker_lines in Hin as [t [H _]]. now exists t.
  - intros [t H].
    exists (u, block (display_name s u) t). split; [reflexivity|].
    apply in_speaker_lines. now exists t.
Qed.

(** A segment of a speaker has its block among the lines. *)
Lemma text_block_in_lines s u t :
  has_text s u t -> In (block (display_name s u) t) (transcript_lines s).
Proof.
  intros H. rewrite <- speaker_lines_erase. apply in_map_iff.
  exists (u, block (display_name s u) t). split; [reflexivity|].
  apply in_speaker_lines. now exists t.
Qed.

Lemma line_has_text s line :
  In line (transcript_lines s)
  -> exists u t, has_text s u t /\ line = block (display_name s u) t.
Proof.
  rewrite <- speaker_lines_erase. intros Hin.
  apply in_map_iff in Hin as [[u l] [E Hin]]. simpl in E. subst l.
  apply in_speaker_lines in Hin as [t [H ->]]. now exists u, t.
Qed.

End TranscriptFacts.

Import TranscriptFacts.

(** C5. [get_combined_transcript] only reads the session: the session it
    leaves is the one it found, and a second call right after the first
    returns the same string. The string is the blocks
    ["{label}:\n{segment}\n"] joined by a newline, so with a blank line
    between two blocks, speakers in the order of the transcript mapping and
    the segments of a speaker in the order of their list; the label is the
    display name or, without one, ["User "] followed by the decimal writing
    of the speaker id. [append_final_line] keeps that order the order of
    first appearance and of arrival: a new speaker goes last in the
    mapping, a known one keeps their place, and the segment goes last in
    the speaker's list. *)
Theorem C5_combined_transcript_is_ordered_read (s : Session) :
  fst (get_combined_transcript s) = s
  /\ get_combined_transcript (fst (get_combined_transcript s))
     = get_combined_transcript s
  /\ snd (get_combined_transcript s) = combinedTranscript s
  /\ (forall u t,
        keys (user_transcripts (append_final_line s u t))
        = if contains (user_transcripts s) u
          then keys (user_transcripts s)
          else keys (user_transcripts s) ++ [u])
  /\ (forall u t u',
        segments (append_final_line s u t) u'
        = if Z.eqb u' u then segments s u ++ [t] else segments s u').
Proof.
  repeat split.
  - unfold get_combined_transcript, combinedTranscript. simpl.
    rewrite transcript_lines_labelled. apply join_blocks.
  - intros u t. unfold append_final_line. simpl. apply keys_set.
  - intros u t u'. apply segments_append.
Qed.

(** ** One flush, and any number of them *)

Module FlushFacts.

Lemma in_set_same {V} (d : dict V) k v : In (k, v) (set d k v).
Proof.
  induction d as [|[k' v'] r IH]; simpl.
  - now left.
  - destruct (Z.eqb k k'); [now left | right; exact IH].
Qed.

Lemma in_set_keep {V} (d : dict V) k v k' v' :
  In (k', v') d ->
  In (k', v') (set d k v) \/ (k' = k /\ get d k = Some v').
Proof.
  induction d as [|[k0 v0] r IH]; simpl; [contradiction|].
  intros [E|Hin].
  - injection E as -> ->.
    destruct (Z.eqb_spec k k') as [->|Hk]; [now right | left; now left].
  - destruct (Z.eqb_spec k k0) as [->|Hk].
    + left. now right.
    + destruct (IH Hin) as [H|[-> H]]; [left; now right | now right].
Qed.

Lemma handed_app w1 w2 u : handed (w1 ++ w2) u = handed w1 u ++ handed w2 u.
Proof. unfold handed. now rewrite filter_app, map_app. Qed.

Lemma handed_one u0 b o u :
  handed [mkRun u0 b o] u = if Z.eqb u0 u then [b] else [].
Proof. unfold handed. simpl. now destruct (Z.eqb u0 u). Qed.

Lemma has_text_append_keep s u0 t0 u t :
  has_text s u t -> has_text (append_final_line s u0 t0) u t.
Proof.
  intros [texts [Hin Ht]]. unfold has_text, append_final_line. simpl.
  destruct (in_set_keep (user_transcripts s) u0
              (get_default (user_transcripts s) u0 [] ++ [t0]) u texts Hin)
    as [H|[-> H]].
  - now exists texts.
  - exists (texts ++ [t0]). split.
    + unfold get_default. rewrite H. apply in_set_same.
    + apply in_or_app. now left.
Qed.

Lemma has_text_append_new s u0 t0 : has_text (append_final_line s u0 t0) u0 t0.
Proof.
  unfold has_text, append_final_line. simpl.
  eexists. split; [apply in_set_same|].
  apply in_or_app. right. now left.
Qed.

Lemma has_text_append_inv s u0 t0 u t :
  has_text (append_final_line s u0 t0) u t ->
  has_text s u t \/ (u = u0 /\ t = t0).
Proof.
  unfold has_text at 1, append_final_line. simpl.
  intros [texts [Hin Ht]]. apply in_set in Hin as [[-> ->]|Hin].
  - apply in_app_or in Ht as [Ht|[<-|[]]]; [left | right; now split].
    apply in_segments_has_text. exact Ht.
  - left. now exists texts.
Qed.

Lemma pending_of_set s u v u' :
  pending_of (set_audio_buffers s (set (audio_buffers s) u v)) u'
  = if Z.eqb u' u then v else pending_of s u'.
Proof. unfold pending_of. simpl. apply get_default_set. Qed.

Lemma pending_nonempty_key s u : pending_of s u <> [] -> In u (keys (audio_buffers s)).
Proof.
  unfold pending_of, get_default.
  destruct (get (audio_buffers s) u) eqn:E; [|congruence].
  intros _. eapply get_some_in_keys; eauto.
Qed.

Lemma advances_refl st : advances st st.
Proof.
  destruct st as [w s]. simpl. repeat split.
  exists []. rewrite app_nil_r. repeat split; auto.
  intros r text [].
Qed.

Lemma advances_trans a b c : advances a b -> advances b c -> advances a c.
Proof.
  destruct a as [w s], b as [w1 s1], c as [w2 s2]. simpl.
  intros (R1 & N1 & K1 & new1 & -> & C1 & H1 & M1 & T1 & O1 & W1)
         (R2 & N2 & K2 & new2 & -> & C2 & H2 & M2 & T2 & O2 & W2).
  repeat split; try congruence.
  exists (new1 ++ new2). rewrite app_assoc. repeat split.
  - intros u. rewrite handed_app, concat_app, <- app_assoc, C2. apply C1.
  - intros u Hu. destruct (H1 u Hu) as [E|(r & Hr & Hu1 & Hp)].
    + rewrite <- E in Hu. destruct (H2 u Hu) as [E2|(r & Hr & Hu2 & Hp)].
      * left. congruence.
      * right. exists r. repeat split; auto; [apply in_or_app; now right | congruence].
    + right. exists r. repeat split; auto. apply in_or_app; now left.
  - intros u t Ht. auto.
  - intros r text Hr Ho. apply in_app_or in Hr as [Hr|Hr]; eauto.
  - intros u t Ht. destruct (O2 u t Ht) as [Ht1|(r & text & Hr & Hu & Ho & Et)].
    + destruct (O1 u t Ht1) as [Ht0|(r & text & Hr & Hu & Ho & Et)]; [now left|].
      right. exists r, text. repeat split; auto. apply in_or_app; now left.
    + right. exists r, text. repeat split; auto. apply in_or_app; now right.
- auto.
Qed.

Section Collaborators.
Variable convert_pcm_to_wav : nat -> bytes -> option bytes.
Variable transcribe_file : nat -> bytes -> option string.

Local Abbreviation flush := (_flush_buffer convert_pcm_to_wav transcribe_file).
Local Abbreviation outcome_at :=
  (pipeline_outcome convert_pcm_to_wav transcribe_file).

(** [_flush_buffer] in one equation: nothing on an empty buffer, else
    the buffer is replaced by an empty one, the block is handed to the
    pipeline, and the session gets what the run yields. *)
Lemma flush_eq w s u :
  flush w s u
  = match pending_of s u with
    | [] => (w, s)
    | _ :: _ =>
        let o := outcome_at (List.length w) (pending_of s u) in
        (w ++ [mkRun u (pending_of s u) o],
         apply_outcome
           (set_audio_buffers s (set (audio_buffers s) u [])) u o)
    end.
Proof.
  unfold _flush_buffer, pipeline_outcome, pending_of.
  destruct (get_default (audio_buffers s) u []) as [|b0 bs]; [reflexivity|].
  cbv zeta.
  destruct (convert_pcm_to_wav _ _) as [wav|]; [|reflexivity].
  destruct (transcribe_file _ _); reflexivity.
Qed.

Lemma flush_advances w s u : advances (w, s) (flush w s u).
Proof.
  rewrite flush_eq. destruct (pending_of s u) as [|b0 bs] eqn:Eb.
  { apply advances_refl. }
  cbv zeta. set (o := outcome_at _ _). set (b := b0 :: bs) in *.
  set (s1 := set_audio_buffers s (set (audio_buffers s) u [])).
  assert (Hk : In u (keys (audio_buffers s))).
  { apply pending_nonempty_key. rewrite Eb. discriminate. }
  assert (Hs1 : is_recording (apply_outcome s1 u o) = is_recording s
                /\ user_names (apply_outcome s1 u o) = user_names s
                /\ audio_buffers (apply_outcome s1 u o)
                   = set (audio_buffers s) u []).
  { destruct o; repeat split. }
  destruct Hs1 as (R & N & B).
  assert (Hp : forall u', pending_of (apply_outcome s1 u o) u'
                          = if Z.eqb u' u then [] else pending_of s u').
  { intros u'. unfold pending_of. rewrite B. apply get_default_set. }
  simpl. repeat split; auto.
  { rewrite B. now apply keys_set_present. }
  exists [mkRun u b o]. repeat split.
  - intros u'. rewrite handed_one, Hp, (Z.eqb_sym u u').
    destruct (Z.eqb_spec u' u) as [->|Hne]; simpl.
    + rewrite !app_nil_r. now rewrite Eb.
    + reflexivity.
  - intros u' Hu'. rewrite Hp.
    destruct (Z.eqb_spec u' u) as [->|Hne]; [right | now left].
    exists (mkRun u b o). simpl. repeat split; auto.
  - intros u' t Ht. destruct o; simpl; auto.
    now apply has_text_append_keep.
  - intros r text [<-|[]] Ho. simpl in *. rewrite Ho. simpl.
    apply has_text_append_new.
  - intros u' t Ht. destruct o eqn:Eo; simpl in Ht; auto.
    apply has_text_append_inv in Ht as [Ht|[-> ->]]; [now left|].
    right. exists (mkRun u b o), text. rewrite Eo. simpl.
    repeat split; auto.
  - destruct o; simpl; auto. apply wf_set.
Qed.

Lemma flush_all_advances w s :
  advances (w, s) (flush_all convert_pcm_to_wav transcribe_file w s).
Proof.
  unfold flush_all. generalize (keys (audio_buffers s)) as l.
  intros l. revert w s. induction l as [|u l IH]; intros w s; cbn [fold_left fst snd].
  - apply advances_refl.
  - apply advances_trans with (b := flush w s u); [apply flush_advances|].
    destruct (flush w s u) as [w1 s1]. apply IH.
Qed.

Lemma flush_nonempty_advances w s :
  advances (w, s) (flush_nonempty convert_pcm_to_wav transcribe_file w s).
Proof.
  unfold flush_nonempty. generalize (keys (audio_buffers s)) as l.
  intros l. revert w s. induction l as [|u l IH]; intros w s; cbn [fold_left fst snd].
  - apply advances_refl.
  - destruct (get (audio_buffers s) u) as [[|b0 bs]|].
    + apply IH.
    + apply advances_trans with (b := flush w s u); [apply flush_advances|].
      destruct (flush w s u) as [w1 s1]. apply IH.
    + apply IH.
Qed.

(** After the loop of [stop_recording], no buffer holds a byte. *)
Lemma flush_all_drains w s u :
  pending_of (snd (flush_all convert_pcm_to_wav transcribe_file w s)) u = [].
Proof.
  destruct (list_eq_dec Byte.byte_eq_dec (pending_of s u) []) as [E|Hne].
  { pose proof (flush_all_advances w s) as H.
    destruct (flush_all _ _ w s) as [w' s']. simpl in *.
    destruct H as (_ & _ & _ & new & _ & C & _).
    specialize (C u). rewrite E in C. now apply app_eq_nil in C. }
  apply pending_nonempty_key in Hne.
  unfold flush_all. revert Hne. generalize (keys (audio_buffers s)) as l.
  intros l. revert w s. induction l as [|u0 l IH]; intros w s; simpl.
  - contradiction.
  - intros Hin.
    assert (Hkeep : forall l st,
               pending_of (snd st) u = [] ->
               pending_of
                 (snd (fold_left
                         (fun (st : World * Session) user_id =>
                            flush (fst st) (snd st) user_id) l st)) u = []).
    { clear. induction l as [|x l IH]; intros st Hst; simpl; [exact Hst|].
      apply IH. pose proof (flush_advances (fst st) (snd st) x) as H.
      destruct (flush (fst st) (snd st) x) as [w1 s1]. simpl in *.
      destruct H as (_ & _ & _ & new & _ & C & _).
      specialize (C u). rewrite Hst in C. now apply app_eq_nil in C. }
    destruct (Z.eq_dec u0 u) as [->|Hne].
    + apply Hkeep. rewrite flush_eq.
      destruct (pending_of s u) as [|b0 bs] eqn:Eb; simpl; [exact Eb|].
      set (o := outcome_at _ _).
      assert (B : audio_buffers
                    (apply_outcome
                       (set_audio_buffers s (set (audio_buffers s) u [])) u o)
                  = set (audio_buffers s) u []) by (destruct o; reflexivity).
      unfold pending_of. rewrite B, get_default_set. now rewrite Z.eqb_refl.
    + destruct Hin as [E|Hin]; [contradiction|].
      destruct (flush w s u0) as [w1 s1]. simpl. now apply IH.
Qed.

End Collaborators.

End FlushFacts.

Import FlushFacts.

(** ** The methods of the manager, seen through [get] *)

Module ManagerFacts.

Lemma get_store self g s g' :
  get (sessions (store_session self g s)) g'
  = if Z.eqb g' g then Some s else get (sessions self) g'.
Proof. unfold store_session. simpl. apply get_set. Qed.

Lemma goc_snd self g : snd (get_or_create_session self g) = session_or_init self g.
Proof.
  unfold get_or_create_session, session_or_init.
  now destruct (get (sessions self) g).
Qed.

Lemma goc_get self g g' :
  get (sessions (fst (get_or_create_session self g))) g'
  = if Z.eqb g' g then Some (session_or_init self g) else get (sessions self) g'.
Proof.
  unfold get_or_create_session, session_or_init.
  destruct (get (sessions self) g) eqn:E; simpl.
  - destruct (Z.eqb_spec g' g) as [->|]; [exact E | reflexivity].
  - apply get_set.
Qed.

Lemma goc_pair self g :
  get_or_create_session self g
  = (fst (get_or_create_session self g), session_or_init self g).
Proof. rewrite <- goc_snd. now destruct (get_or_create_session self g). Qed.

(** Writing back into the manager that [get_or_create_session] left. *)
Lemma get_store_goc self g s g' :
  get (sessions (store_session (fst (get_or_create_session self g)) g s)) g'
  = if Z.eqb g' g then Some s else get (sessions self) g'.
Proof.
  rewrite get_store, goc_get. now destruct (Z.eqb g' g).
Qed.

Lemma start_recording_eq self g :
  start_recording self g
  = (store_session (fst (get_or_create_session self g)) g
       (set_is_recording (session_or_init self g) true),
     set_is_recording (session_or_init self g) true).
Proof. unfold start_recording. now rewrite goc_pair. Qed.

Lemma process_audio_chunk_eq self g u pcm :
  process_audio_chunk self g u pcm
  = let self1 := fst (get_or_create_session self g) in
    let s := session_or_init self g in
    if is_recording s
    then store_session self1 g
           (set_audio_buffers s
              (set (audio_buffers s) u (pending_of s u ++ pcm)))
    else self1.
Proof.
  unfold process_audio_chunk. rewrite goc_pair. cbv zeta.
  now destruct (is_recording (session_or_init self g)).
Qed.

Lemma set_user_name_eq self g u name :
  set_user_name self g u name
  = store_session (fst (get_or_create_session self g)) g
      (set_user_names (session_or_init self g)
         (set (user_names (session_or_init self g)) u name)).
Proof. unfold set_user_name. now rewrite goc_pair. Qed.

Lemma remove_session_get self g g' :
  get (sessions (remove_session self g)) g'
  = if Z.eqb g' g then None else get (sessions self) g'.
Proof.
  unfold remove_session, contains.
  destruct (get (sessions self) g) eqn:E; simpl.
  - destruct (Z.eqb_spec g' g) as [->|Hne];
      [apply get_del_same | now apply get_del_other].
  - destruct (Z.eqb_spec g' g) as [->|Hne]; [exact E | reflexivity].
Qed.

Lemma session_or_init_removed self g :
  session_or_init (remove_session self g) g = Session_init.
Proof.
  unfold session_or_init. rewrite remove_session_get. now rewrite Z.eqb_refl.
Qed.

Lemma goc_absent self g :
  get (sessions self) g = None ->
  get_or_create_session self g = (store_session self g Session_init, Session_init).
Proof. unfold get_or_create_session. now intros ->. Qed.

Section Collaborators.
Variable convert_pcm_to_wav : nat -> bytes -> option bytes.
Variable transcribe_file : nat -> bytes -> option string.

Local Abbreviation flush := (_flush_buffer convert_pcm_to_wav transcribe_file).
Local Abbreviation drain := (flush_all convert_pcm_to_wav transcribe_file).
Local Abbreviation stop := (stop_recording convert_pcm_to_wav transcribe_file).

Lemma stop_recording_eq w self g :
  stop w self g
  = let r := drain w (set_is_recording (session_or_init self g) false) in
    (fst r,
     store_session (fst (get_or_create_session self g)) g (snd r),
     join nl (transcript_lines (snd r))).
Proof.
  unfold stop_recording. rewrite goc_pair. cbv zeta.
  destruct (flush_all _ _ w _) as [w' s']. reflexivity.
Qed.

(** A flush of an empty buffer changes nothing. *)
Lemma flush_idle w s u : pending_of s u = [] -> flush w s u = (w, s).
Proof. intros E. rewrite flush_eq. now rewrite E. Qed.

Lemma flush_all_idle w s : nothing_buffered s -> drain w s = (w, s).
Proof.
  intros H. unfold flush_all. generalize (keys (audio_buffers s)) as l.
  induction l as [|u l IH]; cbn [fold_left fst snd]; [reflexivity|].
  rewrite flush_idle by apply H. exact IH.
Qed.

Lemma transcript_lines_nothing s :
  nothing_transcribed s -> transcript_lines s = [].
Proof.
  unfold nothing_transcribed. rewrite transcript_lines_flat_map.
  induction 1 as [|[uid texts] r E _ IH]; simpl in *; [reflexivity|].
  now rewrite E, IH.
Qed.

(** What [stop_recording] leaves: the facts of [advances] for the
    session of [g], read at the manager. *)
Lemma stop_recording_spec w self g :
  let s0 := set_is_recording (session_or_init self g) false in
  exists s',
    stop w self g
    = (fst (drain w s0),
       store_session (fst (get_or_create_session self g)) g s',
       snd (get_combined_transcript s'))
    /\ snd (drain w s0) = s'
    /\ advances (w, s0) (fst (drain w s0), s')
    /\ forall u, pending_of s' u = [].
Proof.
  intros s0. exists (snd (drain w s0)). split; [|split; [|split]].
  - apply stop_recording_eq.
  - reflexivity.
  - pose proof (flush_all_advances convert_pcm_to_wav transcribe_file w s0) as H.
    now destruct (drain w s0).
  - intros u. apply flush_all_drains.
Qed.

End Collaborators.

End ManagerFacts.

Import ManagerFacts.

(** ** Ingestion *)

Lemma recording_session_or_init self g :
  recording self g = is_recording (session_or_init self g).
Proof. unfold recording, session_or_init. now destruct (get (sessions self) g). Qed.

Lemma pending_session_or_init self g u :
  pending self g u = pending_of (session_or_init self g) u.
Proof. unfold pending, session_or_init. now destruct (get (sessions self) g). Qed.

Lemma buffer_session_or_init self g u :
  buffer self g u = get (audio_buffers (session_or_init self g)) u.
Proof. unfold buffer, session_or_init. now destruct (get (sessions self) g). Qed.

(** C6. [process_audio_chunk] returns a manager in every case. The buffer
    of speaker [u'] of guild [g'] after the call for [g], [u] and [pcm] is
    the one before, unless the session of [g] was recording and [g'], [u']
    are [g], [u]: then it is the bytes that were waiting there (none if the
    speaker had no buffer) followed by exactly [pcm]. So a call while
    [is_recording] is false leaves every buffer of every session as it
    was, and a call while it is true changes the buffer of that speaker
    only, by appending [pcm] at its end. *)
Theorem C6_ingest_appends_only_while_recording
    (self : SessionManager) (g u : Z) (pcm : bytes) (g' u' : Z) :
  buffer (process_audio_chunk self g u pcm) g' u'
  = if recording self g && Z.eqb g' g && Z.eqb u' u
    then Some (pending self g u ++ pcm)
    else buffer self g' u'.
Proof.
  rewrite process_audio_chunk_eq, recording_session_or_init,
    pending_session_or_init. cbv zeta.
  destruct (is_recording (session_or_init self g)) eqn:R; simpl.
  - unfold buffer at 1. rewrite get_store_goc.
    destruct (Z.eqb_spec g' g) as [->|Hne]; simpl; [|reflexivity].
    rewrite get_set, buffer_session_or_init. now destruct (Z.eqb u' u).
  - unfold buffer at 1. rewrite goc_get.
    destruct (Z.eqb_spec g' g) as [->|Hne]; [|reflexivity].
    now rewrite buffer_session_or_init.
Qed.

(** ** Removal *)

(** C7. [remove_session] leaves no session under [g] and leaves the other
    sessions alone; when there was none under [g] the manager is
    unchanged. Whatever comes next for [g] starts from [Session()]:
    [get_or_create_session] returns a new session, [start_recording]
    returns it with only the flag set, [process_audio_chunk] (dropped,
    since a new session is not recording) and [set_user_name] leave under
    [g] a session with no transcript and no buffer, and [stop_recording]
    runs no flush and returns the empty transcript. *)
Theorem C7_removed_session_is_gone
    (convert_pcm_to_wav : nat -> bytes -> option bytes)
    (transcribe_file : nat -> bytes -> option string)
    (w : World) (self : SessionManager) (g : Z) :
  let self' := remove_session self g in
  get (sessions self') g = None
  /\ (forall g', g' <> g -> get (sessions self') g' = get (sessions self) g')
  /\ (get (sessions self) g = None -> self' = self)
  /\ get_or_create_session self' g
     = (store_session self' g Session_init, Session_init)
  /\ start_recording self' g
     = (store_session (store_session self' g Session_init) g
          (set_is_recording Session_init true),
        set_is_recording Session_init true)
  /\ (forall u pcm,
        get (sessions (process_audio_chunk self' g u pcm)) g = Some Session_init)
  /\ (forall u name,
        get (sessions (set_user_name self' g u name)) g
        = Some (set_user_names Session_init [(u, name)]))
  /\ stop_recording convert_pcm_to_wav transcribe_file w self' g
     = (w, store_session (store_session self' g Session_init) g Session_init,
        EmptyString).
Proof.
  intros self'.
  assert (Hnone : get (sessions self') g = None).
  { unfold self'. rewrite remove_session_get. now rewrite Z.eqb_refl. }
  assert (Hgoc := goc_absent self' g Hnone).
  assert (Hinit : session_or_init self' g = Session_init)
    by apply session_or_init_removed.
  split; [exact Hnone|]. split.
  { intros g' Hne. unfold self'. rewrite remove_session_get.
    destruct (Z.eqb_spec g' g); [contradiction | reflexivity]. }
  split.
  { intros E. unfold self', remove_session, contains. now rewrite E. }
  split; [exact Hgoc|]. split.
  { rewrite start_recording_eq, Hinit, Hgoc. reflexivity. }
  split.
  { intros u pcm. rewrite process_audio_chunk_eq, Hinit. simpl.
    rewrite goc_get, Z.eqb_refl. now rewrite Hinit. }
  split.
  { intros u name. rewrite set_user_name_eq, Hinit, get_store. simpl.
    now rewrite Z.eqb_refl. }
  rewrite stop_recording_eq, Hinit, Hgoc. reflexivity.
Qed.

(** ** Stopping a session with nothing in it *)

(** C9. [stop_recording] for a guild without a session runs no pipeline,
    stores a new session, whose flag is false, and returns the empty
    string. For a guild whose session holds no byte in any buffer and no
    segment in its transcript mapping it runs no pipeline, keeps the
    session with the flag set to false, and returns the empty string. *)
Theorem C9_stop_without_audio_returns_empty
    (convert_pcm_to_wav : nat -> bytes -> option bytes)
    (transcribe_file : nat -> bytes -> option string)
    (w : World) (self : SessionManager) (g : Z) :
  (get (sessions self) g = None ->
     stop_recording convert_pcm_to_wav transcribe_file w self g
     = (w, store_session (store_session self g Session_init) g Session_init,
        EmptyString)
     /\ is_recording Session_init = false)
  /\ (forall s,
        get (sessions self) g = Some s ->
        nothing_buffered s -> nothing_transcribed s ->
        stop_recording convert_pcm_to_wav transcribe_file w self g
        = (w, store_session self g (set_is_recording s false), EmptyString)
        /\ is_recording (set_is_recording s false) = false).
Proof.
  split.
  - intros E. split; [|reflexivity].
    rewrite stop_recording_eq. unfold session_or_init. rewrite E.
    rewrite (goc_absent self g E). reflexivity.
  - intros s E Hb Ht. split; [|reflexivity].
    rewrite stop_recording_eq. unfold session_or_init, get_or_create_session.
    rewrite E. cbv zeta.
    rewrite flush_all_idle by exact Hb. simpl.
    rewrite transcript_lines_nothing by exact Ht. reflexivity.
Qed.

(** ** The flush pipeline *)

Section Pipeline.
Variable convert_pcm_to_wav : nat -> bytes -> option bytes.
Variable transcribe_file : nat -> bytes -> option string.

Local Abbreviation flush := (_flush_buffer convert_pcm_to_wav transcribe_file).
Local Abbreviation stop := (stop_recording convert_pcm_to_wav transcribe_file).

Lemma flush_transcribed w s u wav text :
  pending_of s u <> [] ->
  convert_pcm_to_wav (List.length w) (pending_of s u) = Some wav ->
  transcribe_file (List.length w) wav = Some text ->
  flush w s u
  = (w ++ [mkRun u (pending_of s u) (Transcribed text)],
     append_final_line
       (set_audio_buffers s (set (audio_buffers s) u [])) u (strip text)).
Proof.
  intros Hne Hc Ht. rewrite flush_eq. unfold pipeline_outcome.
  destruct (pending_of s u) as [|b0 bs]; [congruence|].
  cbv zeta. now rewrite Hc, Ht.
Qed.


(** Everything [stop_recording] does, in terms of the runs [new] it adds
    to the world and of the session [s'] it leaves under [g]. *)
Lemma stop_recording_facts w self g :
  exists s' new,
    stop w self g
    = (w ++ new,
       store_session (fst (get_or_create_session self g)) g s',
       snd (get_combined_transcript s'))
    /\ is_recording s' = false
    /\ user_names s' = user_names (session_or_init self g)
    /\ keys (audio_buffers s') = keys (audio_buffers (session_or_init self g))
    /\ (forall u, pending_of s' u = [])
    /\ (forall u, List.concat (handed new u) = pending self g u)
    /\ (forall u, pending self g u <> [] ->
                  exists r, In r new /\ run_user r = u
                            /\ run_pcm r = pending self g u)
    /\ (forall u t, has_text (session_or_init self g) u t -> has_text s' u t)
    /\ (forall r text, In r new -> run_outcome r = Transcribed text ->
                       has_text s' (run_user r) (strip text))
    /\ (forall u t, has_text s' u t ->
                    has_text (session_or_init self g) u t
                    \/ exists r text, In r new /\ run_user r = u
                                      /\ run_outcome r = Transcribed text
                                      /\ t = strip text).
Proof.
  destruct (stop_recording_spec convert_pcm_to_wav transcribe_file w self g)
    as (s' & Heq & _ & Hadv & Hdr).
  cbv zeta in *.
  destruct Hadv as (R & N & K & new & Ew & C & H & M & T & O & _).
  exists s', new. rewrite Heq, Ew.
  split; [reflexivity|]. split; [exact R|]. split; [exact N|].
  split; [exact K|]. split; [exact Hdr|].
  assert (Hp : forall u, pending self g u
                         = pending_of
                             (set_is_recording (session_or_init self g) false) u)
    by (intros u; apply pending_session_or_init).
  split.
  { intros u. rewrite Hp, <- (C u), Hdr. now rewrite app_nil_r. }
  split.
  { intros u Hu. rewrite Hp in *. destruct (H u Hu) as [E|Hr]; [|exact Hr].
    rewrite Hdr in E. congruence. }
  split; [exact M|]. split; [exact T | exact O].
Qed.

(** C3, amended. When conversion and transcription both succeed, the
    text is trimmed of surrounding whitespace and appended to the
    speaker's segments, whatever the trimmed text is: the speaker's
    segments after the flush are those before followed by the trimmed
    text, and no other speaker's segments change. *)
Theorem C3_trimmed_text_is_always_appended w s u wav text :
  pending_of s u <> [] ->
  convert_pcm_to_wav (List.length w) (pending_of s u) = Some wav ->
  transcribe_file (List.length w) wav = Some text ->
  forall u',
    segments (snd (flush w s u)) u'
    = if Z.eqb u' u then segments s u ++ [strip text] else segments s u'.
Proof.
  intros Hne Hc Ht u'. rewrite (flush_transcribed w s u wav text Hne Hc Ht).
  cbn [snd]. rewrite segments_append. reflexivity.
Qed.

End Pipeline.

(** ** Runs *)

Module RunFacts.

Section Collaborators.
Variable convert_pcm_to_wav : nat -> bytes -> option bytes.
Variable transcribe_file : nat -> bytes -> option string.

Local Abbreviation flush := (_flush_buffer convert_pcm_to_wav transcribe_file).
Local Abbreviation stop := (stop_recording convert_pcm_to_wav transcribe_file).
Local Abbreviation flusher := (_buffer_flusher convert_pcm_to_wav transcribe_file).
Local Abbreviation step1 := (step convert_pcm_to_wav transcribe_file).
Local Abbreviation run1 := (run convert_pcm_to_wav transcribe_file).
Local Abbreviation run_from1 := (run_from convert_pcm_to_wav transcribe_file).

(** A property of the world and the manager that every flushing of
    one stored session keeps is kept by a round of the flusher. *)
Lemma flusher_invariant (P : World * SessionManager -> Prop) :
  (forall w self g s w' s',
     get (sessions self) g = Some s ->
     advances (w, s) (w', s') ->
     P (w, self) -> P (w', store_session self g s')) ->
  forall w self, P (w, self) -> P (flusher w self).
Proof.
  intros Hstep w self. unfold _buffer_flusher.
  generalize (keys (sessions self)) as l. intros l.
  revert w self. induction l as [|g l IH]; intros w self HP;
    cbn [fold_left fst snd]; [exact HP|].
  destruct (get (sessions self) g) as [s|] eqn:E; [|now apply IH].
  destruct (is_recording s); [|now apply IH].
  pose proof (flush_nonempty_advances convert_pcm_to_wav transcribe_file w s)
    as Hadv.
  destruct (flush_nonempty _ _ w s) as [w' s'].
  apply IH. eapply Hstep; eauto.
Qed.

Lemma run_snoc tr o : run1 (tr ++ [o]) = step1 (run1 tr) o.
Proof. unfold run, run_from. now rewrite fold_left_app. Qed.

Lemma run_from_cons st o tr :
  run_from1 st (o :: tr) = run_from1 (step1 st o) tr.
Proof. reflexivity. Qed.

Lemma step_flush_buffer w self g u :
  step1 (w, self) (FlushBuffer g u)
  = match get (sessions self) g with
    | Some s => (fst (flush w s u), store_session self g (snd (flush w s u)))
    | None => (w, self)
    end.
Proof.
  simpl. destruct (get (sessions self) g) as [s|]; [|reflexivity].
  now destruct (flush w s u).
Qed.

End Collaborators.

Lemma buffer_keys_store self g0 s g :
  buffer_keys (store_session self g0 s) g
  = if Z.eqb g g0 then keys (audio_buffers s) else buffer_keys self g.
Proof.
  unfold buffer_keys. rewrite get_store. now destruct (Z.eqb g g0).
Qed.

Lemma buffer_keys_goc self g0 g :
  buffer_keys (fst (get_or_create_session self g0)) g = buffer_keys self g.
Proof.
  unfold buffer_keys. rewrite goc_get.
  destruct (Z.eqb_spec g g0) as [->|]; [|reflexivity].
  unfold session_or_init. now destruct (get (sessions self) g0).
Qed.

Lemma buffer_keys_session_or_init self g :
  buffer_keys self g = keys (audio_buffers (session_or_init self g)).
Proof.
  unfold buffer_keys, session_or_init. now destruct (get (sessions self) g).
Qed.

Lemma pending_store self g0 s g u :
  pending (store_session self g0 s) g u
  = if Z.eqb g g0 then pending_of s u else pending self g u.
Proof.
  unfold pending. rewrite get_store. now destruct (Z.eqb g g0).
Qed.

Lemma pending_goc self g0 g u :
  pending (fst (get_or_create_session self g0)) g u = pending self g u.
Proof.
  unfold pending. rewrite goc_get.
  destruct (Z.eqb_spec g g0) as [->|]; [|reflexivity].
  unfold session_or_init. now destruct (get (sessions self) g0).
Qed.

End RunFacts.

Import RunFacts.

(** ** No byte is lost between ingestion and the pipeline *)

Section Conservation.
Variable convert_pcm_to_wav : nat -> bytes -> option bytes.
Variable transcribe_file : nat -> bytes -> option string.

Local Abbreviation flush := (_flush_buffer convert_pcm_to_wav transcribe_file).
Local Abbreviation stop := (stop_recording convert_pcm_to_wav transcribe_file).
Local Abbreviation flusher := (_buffer_flusher convert_pcm_to_wav transcribe_file).
Local Abbreviation step1 := (step convert_pcm_to_wav transcribe_file).
Local Abbreviation run1 := (run convert_pcm_to_wav transcribe_file).
Local Abbreviation run_from1 := (run_from convert_pcm_to_wav transcribe_file).
Local Abbreviation ingested :=
  (ingested_chunks convert_pcm_to_wav transcribe_file).

Lemma only_session_store g self s :
  only_session g self -> only_session g (store_session self g s).
Proof.
  intros H g' Hne. rewrite get_store.
  destruct (Z.eqb_spec g' g); [contradiction | now apply H].
Qed.

Lemma only_session_goc g self :
  only_session g self -> only_session g (fst (get_or_create_session self g)).
Proof.
  intros H g' Hne. rewrite goc_get.
  destruct (Z.eqb_spec g' g); [contradiction | now apply H].
Qed.

Lemma pending_process_audio_chunk self g u' pcm u :
  pending (process_audio_chunk self g u' pcm) g u
  = if recording self g && Z.eqb u' u
    then pending self g u ++ pcm
    else pending self g u.
Proof.
  rewrite process_audio_chunk_eq, recording_session_or_init. cbv zeta.
  destruct (is_recording (session_or_init self g)); simpl.
  - rewrite pending_store, Z.eqb_refl, pending_of_set, (Z.eqb_sym u' u).
    rewrite !pending_session_or_init.
    now destruct (Z.eqb_spec u u') as [->|].
  - apply pending_goc.
Qed.

Lemma step_conserves g c w self u :
  only_session g self ->
  only_session g (snd (step1 (w, self) (on g c)))
  /\ total (step1 (w, self) (on g c)) g u
     = total (w, self) g u
       ++ List.concat
            match c with
            | Ingest u' pcm =>
                if recording self g && Z.eqb u' u then [pcm] else []
            | _ => []
            end.
Proof.
  intros Honly. unfold total.
  destruct c as [| |u' pcm|u' name|u'|]; cbn [on].
  - (* start_recording *)
    cbn [step fst snd]. rewrite start_recording_eq. cbn [fst snd concat].
    split; [now apply only_session_store, only_session_goc|].
    rewrite pending_store, Z.eqb_refl, app_nil_r.
    now rewrite pending_session_or_init.
  - (* stop_recording *)
    cbn [step]. destruct (stop_recording_facts convert_pcm_to_wav
                            transcribe_file w self g)
      as (s' & new & E & _ & _ & _ & D & C & _).
    rewrite E. cbn [fst snd concat].
    split; [now apply only_session_store, only_session_goc|].
    rewrite pending_store, Z.eqb_refl, D, handed_app, concat_app, C.
    now rewrite !app_nil_r.
  - (* process_audio_chunk *)
    cbn [step fst snd]. split.
    + rewrite process_audio_chunk_eq. cbv zeta.
      destruct (is_recording (session_or_init self g));
        [apply only_session_store|]; now apply only_session_goc.
    + rewrite pending_process_audio_chunk.
      destruct (recording self g && Z.eqb u' u); simpl;
        now rewrite ?app_nil_r, ?app_assoc.
  - (* set_user_name *)
    cbn [step fst snd]. rewrite set_user_name_eq. cbn [concat].
    split; [now apply only_session_store, only_session_goc|].
    rewrite pending_store, Z.eqb_refl, app_nil_r.
    now rewrite pending_session_or_init.
  - (* one flush from the flusher thread *)
    rewrite step_flush_buffer. cbn [concat]. rewrite app_nil_r.
    destruct (get (sessions self) g) as [s|] eqn:E; [|now split].
    pose proof (flush_advances convert_pcm_to_wav transcribe_file w s u') as Hadv.
    destruct (flush w s u') as [w' s']. cbn [fst snd].
    split; [now apply only_session_store|].
    destruct Hadv as (_ & _ & _ & new & -> & C & _).
    rewrite pending_store, Z.eqb_refl, handed_app, concat_app, <- app_assoc, C.
    unfold pending. now rewrite E.
  - (* a round of the flusher *)
    cbn [step concat]. rewrite app_nil_r.
    apply (flusher_invariant convert_pcm_to_wav transcribe_file
             (fun st => only_session g (snd st)
                        /\ List.concat (handed (fst st) u) ++ pending (snd st) g u
                           = List.concat (handed w u) ++ pending self g u));
      [|now split].
    intros w0 self0 g0 s w' s' E Hadv [Ho Ht].
    cbn [fst snd] in *.
    assert (g0 = g) as ->.
    { destruct (Z.eq_dec g0 g) as [|Hne]; [assumption|].
      rewrite (Ho g0 Hne) in E. discriminate. }
    split; [now apply only_session_store|].
    destruct Hadv as (_ & _ & _ & new & -> & C & _).
    rewrite pending_store, Z.eqb_refl, handed_app, concat_app, <- app_assoc, C.
    rewrite <- Ht. unfold pending. now rewrite E.
Qed.

Lemma run_conserves g tr u :
  forall w self,
    only_session g self ->
    total (run_from1 (w, self) (map (on g) tr)) g u
    = total (w, self) g u
      ++ List.concat (ingested (w, self) (map (on g) tr) g u).
Proof.
  induction tr as [|c tr IH]; intros w self Honly.
  - simpl. now rewrite app_nil_r.
  - cbn [map]. rewrite run_from_cons. cbn [ingested_chunks].
    destruct (step_conserves g c w self u Honly) as [Honly' Hstep].
    destruct (step1 (w, self) (on g c)) as [w' self'] eqn:Est.
    rewrite (IH w' self' Honly'), Hstep, concat_app, <- app_assoc.
    f_equal. f_equal.
    destruct c; cbn [on snd]; try reflexivity.
    now rewrite Z.eqb_refl, andb_true_r.
Qed.

Lemma only_session_init g : only_session g SessionManager_init.
Proof. intros g' _. reflexivity. Qed.

(** C1. Take any sequence of calls on the session of [g]: chunks coming
    in, flushes from the flusher thread (one speaker at a time or a
    whole round), starts, stops and namings, from a new manager. For
    every speaker, the blocks handed to the pipeline, in flush order and
    put end to end, followed by the bytes still waiting in the speaker's
    buffer, are the chunks that came in while [is_recording] was true,
    in call order and put end to end. So once the speaker's buffer has
    been flushed, by [stop_recording] or by a flush of that speaker,
    what the pipeline was handed is what came in: nothing is lost,
    moved or repeated. This needs no assumption on how the runs of the
    pipeline end. *)
Theorem C1_pipeline_sees_ingested_bytes (g : Z) (tr : list call) (u : Z) :
  let ops := map (on g) tr in
  List.concat (handed (fst (run1 ops)) u) ++ pending (snd (run1 ops)) g u
  = List.concat (ingested ([], SessionManager_init) ops g u)
  /\ List.concat (handed (fst (run1 (map (on g) (tr ++ [Stop])))) u)
     = List.concat (ingested ([], SessionManager_init) ops g u)
  /\ List.concat (handed (fst (run1 (map (on g) (tr ++ [Flush u])))) u)
     = List.concat (ingested ([], SessionManager_init) ops g u).
Proof.
  intros ops.
  assert (H0 : forall tr',
             List.concat (handed (fst (run1 (map (on g) tr'))) u)
             ++ pending (snd (run1 (map (on g) tr'))) g u
             = List.concat
                 (ingested ([], SessionManager_init) (map (on g) tr') g u)).
  { intros tr'.
    pose proof (run_conserves g tr' u [] SessionManager_init
                  (only_session_init g)) as H.
    unfold total in H. exact H. }
  split; [apply H0|].
  assert (Hclose : forall c,
             (c = Stop \/ c = Flush u) ->
             List.concat (handed (fst (run1 (map (on g) (tr ++ [c])))) u)
             = List.concat (ingested ([], SessionManager_init) ops g u)).
  { intros c Hc.
    pose proof (H0 (tr ++ [c])) as H.
    assert (Hpend : pending (snd (run1 (map (on g) (tr ++ [c])))) g u = []).
    { rewrite map_app. cbn [map]. rewrite run_snoc.
      destruct (run1 (map (on g) tr)) as [w self].
      destruct Hc as [->| ->]; cbn [on].
      - cbn [step].
        destruct (stop_recording_facts convert_pcm_to_wav transcribe_file
                    w self g) as (s' & new & E & _ & _ & _ & D & _).
        rewrite E. cbn [fst snd]. rewrite pending_store, Z.eqb_refl. apply D.
      - rewrite step_flush_buffer.
        destruct (get (sessions self) g) as [s|] eqn:E; cbn [snd].
        + rewrite pending_store, Z.eqb_refl, flush_eq.
          destruct (pending_of s u) as [|b0 bs] eqn:Eb; cbn [snd]; [exact Eb|].
          cbv zeta. set (o := pipeline_outcome _ _ _ _).
          assert (B : audio_buffers
                        (apply_outcome
                           (set_audio_buffers s (set (audio_buffers s) u [])) u o)
                      = set (audio_buffers s) u [])
            by (destruct o; reflexivity).
          unfold pending_of. rewrite B, get_default_set. now rewrite Z.eqb_refl.
        + unfold pending. now rewrite E. }
    rewrite Hpend, app_nil_r in H.
    rewrite H. rewrite map_app.
    assert (Hing : forall st tr1 tr2,
               ingested st (tr1 ++ tr2) g u
               = ingested st tr1 g u
                 ++ ingested (run_from1 st tr1) tr2 g u).
    { clear. intros st tr1. revert st.
      induction tr1 as [|o tr1 IH]; intros st tr2; [reflexivity|].
      cbn [app ingested_chunks]. rewrite IH, <- app_assoc. reflexivity. }
    rewrite Hing. cbn [map].
    destruct Hc as [->| ->]; cbn [on ingested_chunks app];
      now rewrite app_nil_r. }
  split; apply Hclose; [now left | now right].
Qed.

End Conservation.

(** ** Buffers are made by accepted chunks only *)

Section LazyBuffers.
Variable convert_pcm_to_wav : nat -> bytes -> option bytes.
Variable transcribe_file : nat -> bytes -> option string.

Local Abbreviation flush := (_flush_buffer convert_pcm_to_wav transcribe_file).
Local Abbreviation step1 := (step convert_pcm_to_wav transcribe_file).
Local Abbreviation run1 := (run convert_pcm_to_wav transcribe_file).
Local Abbreviation accepted :=
  (accepted_call convert_pcm_to_wav transcribe_file).

(** Storing, under [g0], a session with the speakers of the one
    [get_or_create_session] returned changes no set of speakers. *)
Lemma buffer_keys_update self g0 s' g :
  keys (audio_buffers s') = keys (audio_buffers (session_or_init self g0)) ->
  buffer_keys (store_session (fst (get_or_create_session self g0)) g0 s') g
  = buffer_keys self g.
Proof.
  intros K. rewrite buffer_keys_store, buffer_keys_goc.
  destruct (Z.eqb_spec g g0) as [->|]; [|reflexivity].
  now rewrite K, buffer_keys_session_or_init.
Qed.

Lemma buffer_keys_store_same self g0 s s' g :
  get (sessions self) g0 = Some s ->
  keys (audio_buffers s') = keys (audio_buffers s) ->
  buffer_keys (store_session self g0 s') g = buffer_keys self g.
Proof.
  intros E K. rewrite buffer_keys_store.
  destruct (Z.eqb_spec g g0) as [->|]; [|reflexivity].
  unfold buffer_keys. now rewrite E.
Qed.

(** A speaker has a buffer after a call only if they had one before, or
    the call is a chunk of theirs that came in while recording. *)
Lemma step_keys w self o g u :
  In u (buffer_keys (snd (step1 (w, self) o)) g) ->
  (In u (buffer_keys self g) /\ o <> RemoveSession g)
  \/ (exists pcm, o = ProcessAudioChunk g u pcm /\ recording self g = true).
Proof.
  destruct o as [g0|g0|g0 u0 pcm|g0 u0 name|g0|g0 u0|].
  - cbn [step snd]. rewrite start_recording_eq. cbn [fst].
    rewrite buffer_keys_update by reflexivity.
    intros H. left. split; [exact H | discriminate].
  - cbn [step].
    destruct (stop_recording_facts convert_pcm_to_wav transcribe_file w self g0)
      as (s' & new & E & _ & _ & K & _).
    rewrite E. cbn [fst snd]. rewrite buffer_keys_update by exact K.
    intros H. left. split; [exact H | discriminate].
  - cbn [step snd]. rewrite process_audio_chunk_eq. cbv zeta.
    destruct (is_recording (session_or_init self g0)) eqn:R.
    + rewrite buffer_keys_store, buffer_keys_goc.
      destruct (Z.eqb_spec g g0) as [->|Hne].
      * cbn [audio_buffers set_audio_buffers]. rewrite keys_set.
        rewrite <- buffer_keys_session_or_init.
        destruct (contains _ u0).
        -- intros H. left. split; [exact H | discriminate].
        -- intros H. apply in_app_or in H as [H|[<-|[]]].
           ++ left. split; [exact H | discriminate].
           ++ right. exists pcm. split; [reflexivity|].
              now rewrite recording_session_or_init.
      * intros H. left. split; [exact H | discriminate].
    + rewrite buffer_keys_goc.
      intros H. left. split; [exact H | discriminate].
  - cbn [step snd]. rewrite set_user_name_eq.
    rewrite buffer_keys_update by reflexivity.
    intros H. left. split; [exact H | discriminate].
  - cbn [step snd]. unfold buffer_keys at 1. rewrite remove_session_get.
    destruct (Z.eqb_spec g g0) as [->|Hne]; [contradiction|].
    intros H. left. split; [exact H | congruence].
  - rewrite step_flush_buffer.
    destruct (get (sessions self) g0) as [s|] eqn:E.
    + pose proof (flush_advances convert_pcm_to_wav transcribe_file w s u0)
        as Hadv.
      destruct (flush w s u0) as [w' s']. cbn [fst snd].
      destruct Hadv as (_ & _ & K & _).
      rewrite (buffer_keys_store_same self g0 s s' g E K).
      intros H. left. split; [exact H | discriminate].
    + intros H. left. split; [exact H | discriminate].
  - cbn [step].
    assert (K : forall g, buffer_keys
                            (snd (_buffer_flusher convert_pcm_to_wav
                                    transcribe_file w self)) g
                          = buffer_keys self g).
    { apply (flusher_invariant convert_pcm_to_wav transcribe_file
               (fun st => forall g, buffer_keys (snd st) g = buffer_keys self g));
        [|reflexivity].
      intros w0 self0 g0 s w' s' E (_ & _ & K & _) HP g1. cbn [snd] in *.
      now rewrite (buffer_keys_store_same self0 g0 s s' g1 E K). }
    rewrite K. intros H. left. split; [exact H | discriminate].
Qed.

Lemma accepted_snoc tr o g u :
  accepted tr g u -> o <> RemoveSession g -> accepted (tr ++ [o]) g u.
Proof.
  intros (tr1 & pcm & tr2 & -> & R & Hn) Ho.
  exists tr1, pcm, (tr2 ++ [o]). split; [|split].
  - now rewrite <- app_assoc.
  - exact R.
  - intros Hin. apply in_app_or in Hin as [Hin|[E|[]]]; [auto | congruence].
Qed.

Lemma accepted_new tr g u pcm :
  recording (snd (run1 tr)) g = true ->
  accepted (tr ++ [ProcessAudioChunk g u pcm]) g u.
Proof.
  intros R. exists tr, pcm, []. split; [reflexivity | split; [exact R | auto]].
Qed.

(** C8. After any sequence of calls on a new manager, a speaker is a key
    of the buffers of the session of [g] only if, since that session was
    made, [process_audio_chunk] was called for that guild and speaker at
    a moment when [is_recording] was true. Call by call: a key that is
    there after a call was there before it, unless the call is such a
    chunk; starting, stopping, naming, removing and flushing add no
    key. *)
Theorem C8_buffer_only_after_accepted_chunk (tr : list op) (g u : Z) :
  (In u (buffer_keys (snd (run1 tr)) g) -> accepted tr g u)
  /\ (forall w self o,
        In u (buffer_keys (snd (step1 (w, self) o)) g) ->
        In u (buffer_keys self g)
        \/ exists pcm, o = ProcessAudioChunk g u pcm
                       /\ recording self g = true).
Proof.
  split.
  - induction tr as [|o tr IH] using rev_ind.
    + intros [].
    + rewrite run_snoc. destruct (run1 tr) as [w self] eqn:Er.
      intros H. apply step_keys in H as [[H Ho]|(pcm & -> & R)].
      * apply accepted_snoc; auto.
      * apply accepted_new. now rewrite Er.
  - intros w self o H. apply step_keys in H as [[H _]|H]; [now left | now right].
Qed.

End LazyBuffers.

(** ** Who appears in the transcript *)

Section Speakers.
Variable convert_pcm_to_wav : nat -> bytes -> option bytes.
Variable transcribe_file : nat -> bytes -> option string.

Local Abbreviation flush := (_flush_buffer convert_pcm_to_wav transcribe_file).
Local Abbreviation step1 := (step convert_pcm_to_wav transcribe_file).
Local Abbreviation run1 := (run convert_pcm_to_wav transcribe_file).

Lemma has_text_init u t : ~ has_text Session_init u t.
Proof. intros [texts [[] _]]. Qed.

Lemma texts_from_runs_goc w self g0 :
  texts_from_runs (w, self) ->
  texts_from_runs (w, fst (get_or_create_session self g0)).
Proof.
  intros J g s u t. cbn [fst snd]. rewrite goc_get.
  destruct (Z.eqb_spec g g0) as [->|Hne]; [|apply J].
  unfold session_or_init. destruct (get (sessions self) g0) as [s0|] eqn:E.
  - intros [= <-]. now apply (J g0).
  - intros [= <-] H. now apply has_text_init in H.
Qed.

(** Storing a session whose segments are those of the session it
    replaces, or come from a run. *)
Lemma texts_from_runs_store w self g0 s s' w' :
  texts_from_runs (w, self) ->
  get (sessions self) g0 = Some s ->
  (forall r, In r w -> In r w') ->
  (forall u t, has_text s' u t ->
               has_text s u t
               \/ exists r text, In r w' /\ run_user r = u
                                 /\ run_outcome r = Transcribed text
                                 /\ t = strip text) ->
  texts_from_runs (w', store_session self g0 s').
Proof.
  intros J E Hw Hs g s1 u t. cbn [fst snd]. rewrite get_store.
  destruct (Z.eqb_spec g g0) as [->|Hne].
  - intros [= <-] Ht. destruct (Hs u t Ht) as [H|H]; [|exact H].
    destruct (J g0 s u t E H) as (r & text & Hr & Hrest).
    exists r, text. split; [now apply Hw | exact Hrest].
  - intros E1 Ht. destruct (J g s1 u t E1 Ht) as (r & text & Hr & Hrest).
    exists r, text. split; [now apply Hw | exact Hrest].
Qed.

Lemma texts_from_runs_advances w self g0 s w' s' :
  texts_from_runs (w, self) ->
  get (sessions self) g0 = Some s ->
  advances (w, s) (w', s') ->
  texts_from_runs (w', store_session self g0 s').
Proof.
  intros J E (_ & _ & _ & new & -> & _ & _ & _ & _ & O & _).
  apply (texts_from_runs_store w self g0 s s'); auto.
  - intros r Hr. apply in_or_app. now left.
  - intros u t Ht. destruct (O u t Ht) as [H|(r & text & Hr & Hrest)];
      [now left | right].
    exists r, text. split; [apply in_or_app; now right | exact Hrest].
Qed.

Lemma goc_get_same self g0 :
  get (sessions (fst (get_or_create_session self g0))) g0
  = Some (session_or_init self g0).
Proof. rewrite goc_get. now rewrite Z.eqb_refl. Qed.

Lemma step_texts_from_runs st o :
  texts_from_runs st -> texts_from_runs (step1 st o).
Proof.
  destruct st as [w self]. intros J.
  destruct o as [g0|g0|g0 u0 pcm|g0 u0 name|g0|g0 u0|].
  - cbn [step]. rewrite start_recording_eq. cbn [fst].
    apply (texts_from_runs_store w _ g0 (session_or_init self g0));
      [now apply texts_from_runs_goc | apply goc_get_same | auto | now left].
  - cbn [step].
    destruct (stop_recording_spec convert_pcm_to_wav transcribe_file w self g0)
      as (s' & E & _ & Hadv & _).
    rewrite E. cbn [fst]. cbv zeta in Hadv.
    apply (texts_from_runs_store w _ g0 (session_or_init self g0));
      [now apply texts_from_runs_goc | apply goc_get_same | |].
    + destruct Hadv as (_ & _ & _ & new & -> & _).
      intros r Hr. apply in_or_app. now left.
    + destruct Hadv as (_ & _ & _ & new & -> & _ & _ & _ & _ & O & _).
      intros u t Ht. destruct (O u t Ht) as [H|(r & text & Hr & Hrest)];
        [now left | right].
      exists r, text. split; [apply in_or_app; now right | exact Hrest].
  - cbn [step]. rewrite process_audio_chunk_eq. cbv zeta.
    destruct (is_recording (session_or_init self g0)).
    + apply (texts_from_runs_store w _ g0 (session_or_init self g0));
        [now apply texts_from_runs_goc | apply goc_get_same | auto | now left].
    + now apply texts_from_runs_goc.
  - cbn [step]. rewrite set_user_name_eq.
    apply (texts_from_runs_store w _ g0 (session_or_init self g0));
      [now apply texts_from_runs_goc | apply goc_get_same | auto | now left].
  - cbn [step]. intros g s u t. cbn [fst snd]. rewrite remove_session_get.
    destruct (Z.eqb g g0); [discriminate | apply J].
  - rewrite step_flush_buffer.
    destruct (get (sessions self) g0) as [s|] eqn:E; [|exact J].
    pose proof (flush_advances convert_pcm_to_wav transcribe_file w s u0) as Hadv.
    destruct (flush w s u0) as [w' s']. cbn [fst snd].
    now apply (texts_from_runs_advances w self g0 s).
  - cbn [step].
    apply (flusher_invariant convert_pcm_to_wav transcribe_file texts_from_runs);
      [|exact J].
    intros w0 self0 g0 s w' s' E Hadv J0.
    now apply (texts_from_runs_advances w0 self0 g0 s).
Qed.

Lemma run_texts_from_runs tr : texts_from_runs (run1 tr).
Proof.
  induction tr as [|o tr IH] using rev_ind.
  - intros g s u t. cbn. discriminate.
  - rewrite run_snoc. now apply step_texts_from_runs.
Qed.



End Speakers.

(** ** The dictionaries hold no key twice *)

Section WellFormed.
Variable convert_pcm_to_wav : nat -> bytes -> option bytes.
Variable transcribe_file : nat -> bytes -> option string.

Local Abbreviation flush := (_flush_buffer convert_pcm_to_wav transcribe_file).
Local Abbreviation step1 := (step convert_pcm_to_wav transcribe_file).
Local Abbreviation run1 := (run convert_pcm_to_wav transcribe_file).

Lemma session_wf_init : session_wf Session_init.
Proof. repeat split; constructor. Qed.

Lemma manager_wf_store self g s :
  manager_wf self -> session_wf s -> manager_wf (store_session self g s).
Proof.
  intros [Hw Hs] Hwf. split.
  - apply wf_set. exact Hw.
  - intros g' s'. rewrite get_store.
    destruct (Z.eqb g' g); [intros [= <-]; exact Hwf | apply Hs].
Qed.

Lemma manager_wf_goc self g :
  manager_wf self ->
  manager_wf (fst (get_or_create_session self g))
  /\ session_wf (session_or_init self g).
Proof.
  intros Hm. unfold get_or_create_session, session_or_init.
  destruct (get (sessions self) g) as [s|] eqn:E; simpl.
  - split; [exact Hm | now apply (proj2 Hm g)].
  - split; [apply manager_wf_store; [exact Hm|] |]; apply session_wf_init.
Qed.

Lemma session_wf_advances w s w' s' :
  advances (w, s) (w', s') -> session_wf s -> session_wf s'.
Proof.
  intros (_ & N & K & new & _ & _ & _ & _ & _ & _ & W) (Ht & Hn & Hb).
  repeat split; [now apply W | now rewrite N | unfold wf; now rewrite K].
Qed.

Lemma step_manager_wf st o : manager_wf (snd st) -> manager_wf (snd (step1 st o)).
Proof.
  destruct st as [w self]. cbn [snd]. intros Hm.
  destruct o as [g0|g0|g0 u0 pcm|g0 u0 name|g0|g0 u0|].
  - destruct (manager_wf_goc self g0 Hm) as [Hg Hs].
    cbn [step snd]. rewrite start_recording_eq. cbn [fst].
    apply manager_wf_store; [exact Hg | exact Hs].
  - destruct (manager_wf_goc self g0 Hm) as [Hg Hs]. cbn [step].
    destruct (stop_recording_spec convert_pcm_to_wav transcribe_file w self g0)
      as (s' & E & _ & Hadv & _).
    rewrite E. cbn [fst snd]. apply manager_wf_store; [exact Hg|].
    eapply session_wf_advances; [exact Hadv | exact Hs].
  - destruct (manager_wf_goc self g0 Hm) as [Hg Hs].
    cbn [step snd]. rewrite process_audio_chunk_eq. cbv zeta.
    destruct (is_recording (session_or_init self g0)); [|exact Hg].
    apply manager_wf_store; [exact Hg|].
    destruct Hs as (Ht & Hn & Hb). repeat split; auto. now apply wf_set.
  - destruct (manager_wf_goc self g0 Hm) as [Hg Hs].
    cbn [step snd]. rewrite set_user_name_eq.
    apply manager_wf_store; [exact Hg|].
    destruct Hs as (Ht & Hn & Hb). repeat split; auto. now apply wf_set.
  - cbn [step snd]. unfold remove_session.
    destruct (contains (sessions self) g0); [|exact Hm].
    destruct Hm as [Hw Hall]. split; [now apply wf_del|].
    intros g s. cbn [sessions].
    destruct (Z.eq_dec g g0) as [->|Hne].
    + now rewrite get_del_same.
    + rewrite get_del_other by assumption. apply Hall.
  - rewrite step_flush_buffer.
    destruct (get (sessions self) g0) as [s|] eqn:E; [|exact Hm].
    pose proof (flush_advances convert_pcm_to_wav transcribe_file w s u0) as Hadv.
    destruct (flush w s u0) as [w' s']. cbn [fst snd].
    apply manager_wf_store; [exact Hm|].
    eapply session_wf_advances; [exact Hadv | now apply (proj2 Hm g0)].
  - cbn [step].
    apply (flusher_invariant convert_pcm_to_wav transcribe_file
             (fun st => manager_wf (snd st))); [|exact Hm].
    intros w0 self0 g0 s w' s' E Hadv Hm0. cbn [snd] in *.
    apply manager_wf_store; [exact Hm0|].
    eapply session_wf_advances; [exact Hadv | now apply (proj2 Hm0 g0)].
Qed.

(** Whatever the calls, the manager of a run holds no guild twice, and
    none of its sessions holds a speaker twice in a dictionary: the
    association lists behave as the dictionaries they stand for. *)
Lemma run_manager_wf tr : manager_wf (snd (run1 tr)).
Proof.
  induction tr as [|o tr IH] using rev_ind.
  - split; [constructor | intros g s; discriminate].
  - rewrite run_snoc. now apply step_manager_wf.
Qed.

End WellFormed.

(** ** The properties at a small call *)

(** A transcription that returns only whitespace still appends a segment,
    the empty string: speaker 7 had no segment before the flush and has
    one after it. *)
Lemma C3_blank_text_appends_empty_segment :
  strip "  " = EmptyString
  /\ pending_of Example.talking 7 = Example.chunk
  /\ segments Example.talking 7 = []
  /\ segments
       (snd (_flush_buffer Example.converts Example.hears_blank []
               Example.talking 7)) 7
     = [EmptyString].
Proof. repeat split. Qed.

Lemma C3_trimmed_text_is_always_appended_at_hello :
  pending_of Example.talking 7 <> []
  /\ segments
       (snd (_flush_buffer Example.converts Example.hears_hello []
               Example.talking 7)) 7
     = ["hello"%string].
Proof.
  assert (H : pending_of Example.talking 7 <> []) by discriminate.
  split; [exact H|].
  exact (C3_trimmed_text_is_always_appended
           Example.converts Example.hears_hello [] Example.talking 7
           Example.chunk " hello "%string H eq_refl eq_refl 7).
Defined.

Lemma C7_removed_session_is_gone_at_absent :
  remove_session SessionManager_init Example.guild = SessionManager_init.
Proof.
  exact (proj1 (proj2 (proj2 (C7_removed_session_is_gone
                                Example.converts Example.hears_hello []
                                SessionManager_init Example.guild)))
           eq_refl).
Defined.

Lemma C9_stop_without_audio_returns_empty_at_quiet :
  stop_recording Example.converts Example.hears_hello []
    (Example.manager_of Example.quiet) Example.guild
  = ([], Example.manager_of (set_is_recording Example.quiet false), EmptyString).
Proof.
  assert (Hb : nothing_buffered Example.quiet).
  { intros u. unfold get_default. simpl. now destruct (Z.eqb u 7). }
  assert (Ht : nothing_transcribed Example.quiet) by constructor.
  exact (proj1 (proj2 (C9_stop_without_audio_returns_empty
                         Example.converts Example.hears_hello []
                         (Example.manager_of Example.quiet) Example.guild)
                  Example.quiet eq_refl Hb Ht)).
Defined.

Lemma C8_buffer_only_after_accepted_chunk_at_one_chunk :
  accepted_call Example.converts Example.hears_hello Example.one_chunk
    Example.guild 7.
Proof.
  apply (proj1 (C8_buffer_only_after_accepted_chunk
                  Example.converts Example.hears_hello Example.one_chunk
                  Example.guild 7)).
  simpl. now left.
Defined.


(** The scenario of the specification: speaker 7 sends a chunk, a round
    of the flusher transcribes it as "hello", the speaker sends another
    chunk, and [stop_recording] transcribes that one as "world"; the
    transcript has the two blocks of the speaker in that order, a blank
    line between them, under the fallback label. *)
Example scenario_hello_then_world :
  let words : nat -> bytes -> option string :=
    fun n _ => if Nat.eqb n 0 then Some "hello"%string else Some "world"%string in
  let st := run Example.converts words
              [StartRecording 1; ProcessAudioChunk 1 7 [x01]; FlusherRound;
               ProcessAudioChunk 1 7 [x02]] in
  snd (stop_recording Example.converts words (fst st) (snd st) 1)
  = ("User 7:" ++ nl ++ "hello" ++ nl ++ nl ++ "User 7:" ++ nl ++ "world" ++ nl)%string.
Proof. reflexivity. Qed.

(** The second scenario: conversion fails for the only chunk of speaker
    8, and the transcript has the block of speaker 7 alone. *)
Example scenario_failed_speaker_is_absent :
  let convert : nat -> bytes -> option bytes :=
    fun n pcm => if Nat.eqb n 0 then Some pcm else None in
  let st := run convert Example.hears_hello
              [StartRecording 1; SetUserName 1 8 "Bob";
               ProcessAudioChunk 1 7 [x01]; ProcessAudioChunk 1 8 [x02]] in
  snd (stop_recording convert Example.hears_hello (fst st) (snd st) 1)
  = ("User 7:" ++ nl ++ "hello" ++ nl)%string.
Proof. reflexivity. Qed.

(** * More of the manager *)

(** ** Flushes, run by run *)

Module RoundFacts.

Lemma set_set {V} (d : dict V) k v v' : set (set d k v) k v' = set d k v'.
Proof.
  induction d as [|[k0 v0] r IH]; simpl.
  - now rewrite Z.eqb_refl.
  - destruct (Z.eqb k k0) eqn:E; simpl.
    + now rewrite Z.eqb_refl.
    + now rewrite E, IH.
Qed.

(** Assigning to a key the value it has changes nothing. *)
Lemma set_same {V} (d : dict V) k v : get d k = Some v -> set d k v = d.
Proof.
  induction d as [|[k0 v0] r IH]; simpl; [discriminate|].
  destruct (Z.eqb_spec k k0) as [->|Hne].
  - now intros [= ->].
  - intros H. now rewrite IH.
Qed.

Lemma set_is_recording_same s : set_is_recording s (is_recording s) = s.
Proof. now destruct s. Qed.

Lemma session_or_init_store self g s : session_or_init (store_session self g s) g = s.
Proof. unfold session_or_init. rewrite get_store. now rewrite Z.eqb_refl. Qed.

Lemma session_or_init_store_other self g0 s g :
  g <> g0 -> session_or_init (store_session self g0 s) g = session_or_init self g.
Proof.
  intros Hne. unfold session_or_init. rewrite get_store.
  now destruct (Z.eqb_spec g g0).
Qed.

Lemma session_or_init_goc self g0 g :
  session_or_init (fst (get_or_create_session self g0)) g = session_or_init self g.
Proof.
  unfold session_or_init at 1. rewrite goc_get.
  destruct (Z.eqb_spec g g0) as [->|]; reflexivity.
Qed.

Lemma session_or_init_get self g s :
  get (sessions self) g = Some s -> session_or_init self g = s.
Proof. unfold session_or_init. now intros ->. Qed.

Lemma store_same self g s : get (sessions self) g = Some s -> store_session self g s = self.
Proof.
  intros E. unfold store_session. rewrite (set_same _ _ _ E). now destruct self.
Qed.

(** What a mapping holds for [u] once the runs of [w] are recorded. *)
Lemma get_default_record w :
  forall d u,
    get_default (fold_left record_run w d) u []
    = get_default d u [] ++ texts_of w u.
Proof.
  induction w as [|r w IH]; intros d u.
  - simpl. now rewrite app_nil_r.
  - change (fold_left record_run (r :: w) d)
      with (fold_left record_run w (record_run d r)).
    change (texts_of (r :: w) u)
      with ((if Z.eqb (run_user r) u then
               match run_outcome r with
               | Transcribed text => [strip text]
               | ConversionFailed | TranscriptionFailed => []
               end
             else []) ++ texts_of w u).
    rewrite IH. unfold record_run.
    destruct (run_outcome r) as [| |text].
    + now destruct (Z.eqb (run_user r) u).
    + now destruct (Z.eqb (run_user r) u).
    + rewrite get_default_set, (Z.eqb_sym u (run_user r)).
      destruct (Z.eqb_spec (run_user r) u) as [->|Hne].
      * now rewrite <- app_assoc.
      * reflexivity.
Qed.

Lemma flushed_refl st : flushed st st.
Proof.
  exists []. rewrite app_nil_r. repeat split. constructor.
Qed.

Lemma flushed_trans a b c : flushed a b -> flushed b c -> flushed a c.
Proof.
  intros (n1 & E1 & F1 & T1) (n2 & E2 & F2 & T2).
  exists (n1 ++ n2). split; [|split].
  - now rewrite E2, E1, app_assoc.
  - apply Forall_app. now split.
  - now rewrite T2, T1, fold_left_app.
Qed.

Section Collaborators.
Variable convert_pcm_to_wav : nat -> bytes -> option bytes.
Variable transcribe_file : nat -> bytes -> option string.

Local Abbreviation flush := (_flush_buffer convert_pcm_to_wav transcribe_file).
Local Abbreviation flusher := (_buffer_flusher convert_pcm_to_wav transcribe_file).
Local Abbreviation step1 := (step convert_pcm_to_wav transcribe_file).
Local Abbreviation run1 := (run convert_pcm_to_wav transcribe_file).

(** After a flush of [u0] the buffer of [u0] is empty and the others are
    as they were. *)
Lemma pending_after_flush w s u0 u :
  pending_of (snd (flush w s u0)) u
  = if Z.eqb u u0 then [] else pending_of s u.
Proof.
  rewrite flush_eq. destruct (pending_of s u0) as [|b0 bs] eqn:Eb; cbn [snd].
  - destruct (Z.eqb_spec u u0) as [->|]; [exact Eb | reflexivity].
  - cbv zeta. set (o := pipeline_outcome _ _ _ _).
    assert (B : audio_buffers
                  (apply_outcome
                     (set_audio_buffers s (set (audio_buffers s) u0 [])) u0 o)
                = set (audio_buffers s) u0 []) by (destruct o; reflexivity).
    unfold pending_of. rewrite B. apply get_default_set.
Qed.

Lemma flush_flushed w s u : flushed (w, s) (flush w s u).
Proof.
  rewrite flush_eq. destruct (pending_of s u) as [|b0 bs] eqn:Eb.
  - apply flushed_refl.
  - cbv zeta. set (o := pipeline_outcome _ _ _ _).
    exists [mkRun u (b0 :: bs) o]. cbn [fst snd]. split; [reflexivity|]. split.
    + repeat constructor. discriminate.
    + cbn [fold_left]. unfold record_run. cbn [run_outcome run_user].
      now destruct o.
Qed.

Lemma flush_all_flushed w s :
  flushed (w, s) (flush_all convert_pcm_to_wav transcribe_file w s).
Proof.
  unfold flush_all. generalize (keys (audio_buffers s)) as l.
  intros l. revert w s. induction l as [|u l IH]; intros w s; cbn [fold_left fst snd].
  - apply flushed_refl.
  - apply flushed_trans with (b := flush w s u); [apply flush_flushed|].
    destruct (flush w s u) as [w1 s1]. apply IH.
Qed.

Lemma flush_nonempty_flushed w s :
  flushed (w, s) (flush_nonempty convert_pcm_to_wav transcribe_file w s).
Proof.
  unfold flush_nonempty. generalize (keys (audio_buffers s)) as l.
  intros l. revert w s. induction l as [|u l IH]; intros w s; cbn [fold_left fst snd].
  - apply flushed_refl.
  - destruct (get (audio_buffers s) u) as [[|b0 bs]|].
    + apply IH.
    + apply flushed_trans with (b := flush w s u); [apply flush_flushed|].
      destruct (flush w s u) as [w1 s1]. apply IH.
    + apply IH.
Qed.

(** The inner loop of the flusher leaves no buffer with bytes. *)
Lemma flush_nonempty_drains w s u :
  pending_of (snd (flush_nonempty convert_pcm_to_wav transcribe_file w s)) u = [].
Proof.
  unfold flush_nonempty.
  assert (H : forall l w s,
             In u l \/ pending_of s u = [] ->
             pending_of
               (snd (fold_left
                       (fun (st : World * Session) user_id =>
                          match get (audio_buffers (snd st)) user_id with
                          | Some (_ :: _) => flush (fst st) (snd st) user_id
                          | _ => st
                          end) l (w, s))) u = []).
  { induction l as [|u0 l IH]; intros w0 s0 Hu; cbn [fold_left fst snd].
    - destruct Hu as [[]|Hu]. exact Hu.
    - assert (Hnext : forall st : World * Session,
                 pending_of (snd st) u
                 = (if Z.eqb u u0 then [] else pending_of s0 u) ->
                 In u l \/ pending_of (snd st) u = []).
      { intros st E. destruct (Z.eqb_spec u u0) as [->|Hne]; [now right|].
        destruct Hu as [[E0|Hin]|Hu]; [congruence | now left | right].
        now rewrite E. }
      destruct (get (audio_buffers s0) u0) as [[|b0 bs]|] eqn:Eg.
      + apply IH. destruct Hu as [[->|Hin]|Hu]; [right | now left | now right].
        unfold pending_of, get_default. now rewrite Eg.
      + pose proof (pending_after_flush w0 s0 u0 u) as E.
        destruct (flush w0 s0 u0) as [w1 s1]. apply IH.
        apply (Hnext (w1, s1)). exact E.
      + apply IH. destruct Hu as [[->|Hin]|Hu]; [right | now left | now right].
        unfold pending_of, get_default. now rewrite Eg. }
  destruct (list_eq_dec Byte.byte_eq_dec (pending_of s u) []) as [E|Hne].
  - apply H. now right.
  - apply H. left. now apply pending_nonempty_key.
Qed.

(** The inner loop of the flusher does nothing to a session whose
    buffers are all empty. *)
Lemma flush_nonempty_idle w s :
  nothing_buffered s ->
  flush_nonempty convert_pcm_to_wav transcribe_file w s = (w, s).
Proof.
  intros H. unfold flush_nonempty. generalize (keys (audio_buffers s)) as l.
  induction l as [|u l IH]; cbn [fold_left fst snd]; [reflexivity|].
  specialize (H u). unfold get_default in H.
  destruct (get (audio_buffers s) u) as [[|b0 bs]|]; [exact IH | discriminate | exact IH].
Qed.

(** A property kept whenever the inner loop runs on a stored session
    that is recording is kept by a round of the flusher. *)
Lemma flusher_round_invariant (P : World * SessionManager -> Prop) :
  (forall w self g s,
     get (sessions self) g = Some s ->
     is_recording s = true ->
     P (w, self) ->
     P (fst (flush_nonempty convert_pcm_to_wav transcribe_file w s),
        store_session self g
          (snd (flush_nonempty convert_pcm_to_wav transcribe_file w s)))) ->
  forall w self, P (w, self) -> P (flusher w self).
Proof.
  intros Hstep w self. unfold _buffer_flusher.
  generalize (keys (sessions self)) as l. intros l.
  revert w self. induction l as [|g l IH]; intros w self HP;
    cbn [fold_left fst snd]; [exact HP|].
  destruct (get (sessions self) g) as [s|] eqn:E; [|now apply IH].
  destruct (is_recording s) eqn:R; [|now apply IH].
  specialize (Hstep w self g s E R HP).
  destruct (flush_nonempty _ _ w s) as [w' s']. now apply IH.
Qed.

End Collaborators.

End RoundFacts.

Import RoundFacts.

(** ** What a run keeps *)

Section Kept.
Variable convert_pcm_to_wav : nat -> bytes -> option bytes.
Variable transcribe_file : nat -> bytes -> option string.

Local Abbreviation flush := (_flush_buffer convert_pcm_to_wav transcribe_file).
Local Abbreviation flusher := (_buffer_flusher convert_pcm_to_wav transcribe_file).
Local Abbreviation inner := (flush_nonempty convert_pcm_to_wav transcribe_file).
Local Abbreviation drain := (flush_all convert_pcm_to_wav transcribe_file).
Local Abbreviation stop := (stop_recording convert_pcm_to_wav transcribe_file).
Local Abbreviation step1 := (step convert_pcm_to_wav transcribe_file).
Local Abbreviation run1 := (run convert_pcm_to_wav transcribe_file).

Lemma session_or_init_update self g0 s' g :
  session_or_init (store_session (fst (get_or_create_session self g0)) g0 s') g
  = if Z.eqb g g0 then s' else session_or_init self g.
Proof.
  destruct (Z.eqb_spec g g0) as [->|Hne].
  - apply session_or_init_store.
  - rewrite session_or_init_store_other by assumption.
    apply session_or_init_goc.
Qed.

Lemma step_world st o :
  exists new,
    fst (step1 st o) = fst st ++ new
    /\ Forall (fun r => run_pcm r <> []) new.
Proof.
  destruct st as [w self]. cbn [fst].
  assert (Hnil : exists new : World,
             w = w ++ new /\ Forall (fun r => run_pcm r <> []) new).
  { exists []. now rewrite app_nil_r. }
  destruct o as [g0|g0|g0 u0 pcm|g0 u0 name|g0|g0 u0|]; cbn [step fst];
    try exact Hnil.
  - rewrite stop_recording_eq. cbv zeta. cbn [fst].
    destruct (flush_all_flushed convert_pcm_to_wav transcribe_file w
                (set_is_recording (session_or_init self g0) false))
      as (new & E & F & _).
    exists new. now split.
  - destruct (get (sessions self) g0) as [s|]; [|exact Hnil].
    destruct (flush_flushed convert_pcm_to_wav transcribe_file w s u0)
      as (new & E & F & _).
    destruct (flush w s u0) as [w' s']. exists new. now split.
  - apply (flusher_round_invariant convert_pcm_to_wav transcribe_file
             (fun st' => exists new,
                  fst st' = w ++ new
                  /\ Forall (fun r => run_pcm r <> []) new)); [|exact Hnil].
    intros w0 self0 g s _ _ (n0 & E0 & F0). cbn [fst] in *.
    destruct (flush_nonempty_flushed convert_pcm_to_wav transcribe_file w0 s)
      as (new & E & F & _).
    exists (n0 ++ new). cbn [fst] in E. split.
    + now rewrite E, E0, app_assoc.
    + apply Forall_app. now split.
Qed.

(** X1. The pipeline is never run on an empty block: whatever the calls
    on a new manager, every run of the conversion and transcription was
    handed at least one byte. A speaker whose buffer is empty costs no
    FFmpeg process and no transcription. *)
Theorem pipeline_never_sees_an_empty_block (tr : list op) :
  Forall (fun r => run_pcm r <> []) (fst (run1 tr)).
Proof.
  induction tr as [|o tr IH] using rev_ind.
  - constructor.
  - rewrite run_snoc. destruct (step_world (run1 tr) o) as (new & -> & F).
    apply Forall_app. now split.
Qed.

Lemma step_log g c w self :
  only_session g self ->
  user_transcripts (session_or_init self g) = fold_left record_run w [] ->
  user_transcripts (session_or_init (snd (step1 (w, self) (on g c))) g)
  = fold_left record_run (fst (step1 (w, self) (on g c))) [].
Proof.
  intros Honly Hlog.
  destruct c as [| |u' pcm|u' name|u'|]; cbn [on].
  - cbn [step fst snd]. rewrite start_recording_eq. cbn [fst].
    now rewrite session_or_init_store.
  - cbn [step]. rewrite stop_recording_eq. cbv zeta. cbn [fst snd].
    rewrite session_or_init_store.
    destruct (flush_all_flushed convert_pcm_to_wav transcribe_file w
                (set_is_recording (session_or_init self g) false))
      as (new & E & _ & T).
    cbn [fst snd] in E, T. rewrite T, E, fold_left_app. cbn [user_transcripts
      set_is_recording]. now rewrite Hlog.
  - cbn [step fst snd]. rewrite process_audio_chunk_eq. cbv zeta.
    destruct (is_recording (session_or_init self g)).
    + now rewrite session_or_init_store.
    + now rewrite session_or_init_goc.
  - cbn [step fst snd]. rewrite set_user_name_eq.
    now rewrite session_or_init_store.
  - rewrite step_flush_buffer.
    destruct (get (sessions self) g) as [s|] eqn:Es; [|exact Hlog].
    cbn [fst snd]. rewrite session_or_init_store.
    destruct (flush_flushed convert_pcm_to_wav transcribe_file w s u')
      as (new & E & _ & T).
    cbn [fst snd] in E, T. rewrite T, E, fold_left_app.
    rewrite (session_or_init_get self g s Es) in Hlog. now rewrite Hlog.
  - cbn [step].
    apply (flusher_round_invariant convert_pcm_to_wav transcribe_file
             (fun st' =>
                only_session g (snd st')
                /\ user_transcripts (session_or_init (snd st') g)
                   = fold_left record_run (fst st') []));
      [|now split].
    intros w0 self0 g0 s Es _ [Ho Hl]. cbn [fst snd] in *.
    assert (g0 = g) as ->.
    { destruct (Z.eq_dec g0 g) as [|Hne]; [assumption|].
      rewrite (Ho g0 Hne) in Es. discriminate. }
    split; [now apply only_session_store|].
    rewrite session_or_init_store.
    destruct (flush_nonempty_flushed convert_pcm_to_wav transcribe_file w0 s)
      as (new & E & _ & T).
    cbn [fst snd] in E, T. rewrite T, E, fold_left_app.
    rewrite (session_or_init_get self0 g s Es) in Hl. now rewrite Hl.
Qed.

Lemma run_log g tr :
  forall w self,
    only_session g self ->
    user_transcripts (session_or_init self g) = fold_left record_run w [] ->
    let st := run_from convert_pcm_to_wav transcribe_file (w, self) (map (on g) tr) in
    user_transcripts (session_or_init (snd st) g) = fold_left record_run (fst st) [].
Proof.
  induction tr as [|c tr IH]; intros w self Honly Hlog; [exact Hlog|].
  cbn [map]. rewrite run_from_cons.
  pose proof (step_log g c w self Honly Hlog) as Hstep.
  destruct (step_conserves convert_pcm_to_wav transcribe_file g c w self 0%Z Honly)
    as [Honly' _].
  destruct (step1 (w, self) (on g c)) as [w' self'] eqn:Est.
  change (step convert_pcm_to_wav transcribe_file (w, self) (on g c))
    with (step1 (w, self) (on g c)) in Honly'.
  rewrite Est in Honly'. cbn [fst snd] in *. apply IH; assumption.
Qed.

(** X2. In a session, the transcript mapping is what the log of the
    pipeline says: after any sequence of calls on the session of one
    guild of a new manager, the mapping is obtained by recording, run
    after run, the trimmed text of each run that returned one, and the
    segments of a speaker are the trimmed texts of that speaker's
    successful runs in the order of the runs. Failed runs leave no
    trace, and nothing else ever writes a segment. *)
Theorem transcript_is_the_log_of_successful_runs (g : Z) (tr : list call) (u : Z) :
  let st := run1 (map (on g) tr) in
  user_transcripts (session_or_init (snd st) g)
  = fold_left record_run (fst st) []
  /\ segments (session_or_init (snd st) g) u = texts_of (fst st) u.
Proof.
  cbv zeta.
  pose proof (run_log g tr [] SessionManager_init (only_session_init g) eq_refl)
    as H.
  cbv zeta in H. split; [exact H|].
  unfold segments. unfold run in *. rewrite H. now rewrite get_default_record.
Qed.

End Kept.

(** ** Nothing is taken back before a removal *)

Section Growth.
Variable convert_pcm_to_wav : nat -> bytes -> option bytes.
Variable transcribe_file : nat -> bytes -> option string.

Local Abbreviation flush := (_flush_buffer convert_pcm_to_wav transcribe_file).
Local Abbreviation flusher := (_buffer_flusher convert_pcm_to_wav transcribe_file).
Local Abbreviation inner := (flush_nonempty convert_pcm_to_wav transcribe_file).
Local Abbreviation drain := (flush_all convert_pcm_to_wav transcribe_file).
Local Abbreviation step1 := (step convert_pcm_to_wav transcribe_file).
Local Abbreviation run_from1 := (run_from convert_pcm_to_wav transcribe_file).

Lemma grows_refl s : grows s s.
Proof. split; [intros u|]; exists []; now rewrite app_nil_r. Qed.

Lemma grows_trans s1 s2 s3 : grows s1 s2 -> grows s2 s3 -> grows s1 s3.
Proof.
  intros [S1 [k1 K1]] [S2 [k2 K2]]. split.
  - intros u. destruct (S1 u) as [e1 E1]. destruct (S2 u) as [e2 E2].
    exists (e1 ++ e2). now rewrite E2, E1, app_assoc.
  - exists (k1 ++ k2). now rewrite K2, K1, app_assoc.
Qed.

(** A session that differs by its flag or its names only. *)
Lemma grows_same s s' :
  user_transcripts s' = user_transcripts s ->
  audio_buffers s' = audio_buffers s ->
  grows s s'.
Proof.
  intros T B. unfold grows, segments. rewrite T, B.
  split; [intros u|]; exists []; now rewrite app_nil_r.
Qed.

Lemma flushed_grows w s w' s' :
  flushed (w, s) (w', s') -> advances (w, s) (w', s') -> grows s s'.
Proof.
  intros (new & _ & _ & T) (_ & _ & K & _). cbn [fst snd] in T. split.
  - intros u. exists (texts_of new u). unfold segments.
    rewrite T. apply get_default_record.
  - exists []. now rewrite app_nil_r.
Qed.

Lemma goc_fst_present self g s :
  get (sessions self) g = Some s -> fst (get_or_create_session self g) = self.
Proof. unfold get_or_create_session. now intros ->. Qed.

Lemma update_grows self g0 s' g :
  grows (session_or_init self g0) s' ->
  grows (session_or_init self g)
    (session_or_init
       (store_session (fst (get_or_create_session self g0)) g0 s') g)
  /\ (get (sessions self) g <> None ->
      get (sessions (store_session (fst (get_or_create_session self g0)) g0 s')) g
      <> None).
Proof.
  intros G. rewrite session_or_init_update, get_store_goc.
  destruct (Z.eqb_spec g g0) as [->|Hne].
  - split; [exact G | discriminate].
  - split; [apply grows_refl | auto].
Qed.

Lemma store_grows self g0 s s' g :
  get (sessions self) g0 = Some s ->
  grows s s' ->
  grows (session_or_init self g) (session_or_init (store_session self g0 s') g)
  /\ (get (sessions self) g <> None ->
      get (sessions (store_session self g0 s')) g <> None).
Proof.
  intros E G.
  pose proof (update_grows self g0 s' g) as H.
  rewrite (goc_fst_present self g0 s E), (session_or_init_get self g0 s E) in H.
  now apply H.
Qed.

Lemma step_grows st o g :
  o <> RemoveSession g ->
  grows (session_or_init (snd st) g) (session_or_init (snd (step1 st o)) g)
  /\ (get (sessions (snd st)) g <> None ->
      get (sessions (snd (step1 st o))) g <> None).
Proof.
  destruct st as [w self]. cbn [snd]. intros Ho.
  destruct o as [g0|g0|g0 u0 pcm|g0 u0 name|g0|g0 u0|].
  - cbn [step snd]. rewrite start_recording_eq. cbn [fst].
    apply update_grows. now apply grows_same.
  - cbn [step]. rewrite stop_recording_eq. cbv zeta. cbn [fst snd].
    apply update_grows.
    apply grows_trans
      with (s2 := set_is_recording (session_or_init self g0) false);
      [now apply grows_same|].
    pose proof (flush_all_flushed convert_pcm_to_wav transcribe_file w
                  (set_is_recording (session_or_init self g0) false)) as F.
    pose proof (flush_all_advances convert_pcm_to_wav transcribe_file w
                  (set_is_recording (session_or_init self g0) false)) as A.
    destruct (drain w _) as [w' s']. now apply (flushed_grows w _ w').
  - cbn [step snd]. rewrite process_audio_chunk_eq. cbv zeta.
    destruct (is_recording (session_or_init self g0)).
    + apply update_grows. split.
      * intros u. exists []. now rewrite app_nil_r.
      * cbn [audio_buffers set_audio_buffers]. rewrite keys_set.
        destruct (contains _ u0); [exists [] | exists [u0]];
          now rewrite ?app_nil_r.
    + rewrite session_or_init_goc, goc_get. split; [apply grows_refl|].
      destruct (Z.eqb g g0); [discriminate | auto].
  - cbn [step snd]. rewrite set_user_name_eq.
    apply update_grows. now apply grows_same.
  - cbn [step snd]. unfold session_or_init. rewrite remove_session_get.
    destruct (Z.eqb_spec g g0) as [->|Hne]; [congruence|].
    split; [apply grows_refl | auto].
  - rewrite step_flush_buffer.
    destruct (get (sessions self) g0) as [s|] eqn:E; cbn [snd];
      [|split; [apply grows_refl | auto]].
    apply (store_grows self g0 s); [exact E|].
    pose proof (flush_flushed convert_pcm_to_wav transcribe_file w s u0) as F.
    pose proof (flush_advances convert_pcm_to_wav transcribe_file w s u0) as A.
    destruct (flush w s u0) as [w' s']. now apply (flushed_grows w s w').
  - cbn [step].
    apply (flusher_round_invariant convert_pcm_to_wav transcribe_file
             (fun st' =>
                forall g,
                  grows (session_or_init self g) (session_or_init (snd st') g)
                  /\ (get (sessions self) g <> None ->
                      get (sessions (snd st')) g <> None)));
      [|intros g1; split; [apply grows_refl | auto]].
    intros w0 self0 g0 s E _ HP g1. cbn [snd] in *.
    destruct (HP g1) as [G1 N1].
    pose proof (flush_nonempty_flushed convert_pcm_to_wav transcribe_file w0 s) as F.
    pose proof (flush_nonempty_advances convert_pcm_to_wav transcribe_file w0 s) as A.
    destruct (inner w0 s) as [w' s']. cbn [fst snd].
    destruct (store_grows self0 g0 s s' g1 E (flushed_grows w0 s w' s' F A))
      as [G2 N2].
    split; [now apply grows_trans with (s2 := session_or_init self0 g1) | auto].
Qed.

Lemma run_grows tr :
  forall st g,
    ~ In (RemoveSession g) tr ->
    grows (session_or_init (snd st) g)
      (session_or_init (snd (run_from1 st tr)) g)
    /\ (get (sessions (snd st)) g <> None ->
        get (sessions (snd (run_from1 st tr))) g <> None).
Proof.
  induction tr as [|o tr IH]; intros st g Hn.
  - split; [apply grows_refl | auto].
  - rewrite run_from_cons.
    assert (Ho : o <> RemoveSession g) by (intros ->; apply Hn; now left).
    assert (Hn' : ~ In (RemoveSession g) tr) by (intros H; apply Hn; now right).
    destruct (step_grows st o g Ho) as [G1 N1].
    destruct (IH (step1 st o) g Hn') as [G2 N2].
    split; [now apply grows_trans with (s2 := session_or_init (snd (step1 st o)) g)
           | auto].
Qed.

(** X4. Segments are only ever added, and only at the end. From any state
    of the manager and through any sequence of calls that does not remove
    the session of [g], the session stays, and the segments of every
    speaker afterwards are the segments before followed by new ones:
    starting, stopping, naming, late chunks and failed flushes never
    drop, reorder or rewrite a segment. *)
Theorem segments_only_grow st (tr : list op) (g u : Z) :
  ~ In (RemoveSession g) tr ->
  (exists extra,
     segments (session_or_init (snd (run_from1 st tr)) g) u
     = segments (session_or_init (snd st) g) u ++ extra)
  /\ (get (sessions (snd st)) g <> None ->
      get (sessions (snd (run_from1 st tr))) g <> None).
Proof.
  intros Hn. destruct (run_grows tr st g Hn) as [[S _] N]. split; [apply S | exact N].
Qed.

(** X5. A buffer is emptied, never deleted. From any state and through
    any sequence of calls that does not remove the session of [g], the
    speakers that have a buffer afterwards are those before, in their
    order, followed by newcomers: a flush leaves the speaker's key in
    place with an empty buffer, and only [remove_session] frees it. *)
Theorem buffers_are_never_dropped st (tr : list op) (g : Z) :
  ~ In (RemoveSession g) tr ->
  exists extra,
    buffer_keys (snd (run_from1 st tr)) g = buffer_keys (snd st) g ++ extra.
Proof.
  intros Hn. destruct (run_grows tr st g Hn) as [[_ K] _].
  now rewrite !buffer_keys_session_or_init.
Qed.

End Growth.

(** ** Calling twice *)

Section Twice.
Variable convert_pcm_to_wav : nat -> bytes -> option bytes.
Variable transcribe_file : nat -> bytes -> option string.

Local Abbreviation flusher := (_buffer_flusher convert_pcm_to_wav transcribe_file).
Local Abbreviation inner := (flush_nonempty convert_pcm_to_wav transcribe_file).
Local Abbreviation drain := (flush_all convert_pcm_to_wav transcribe_file).
Local Abbreviation stop := (stop_recording convert_pcm_to_wav transcribe_file).

(** X6. [stop_recording] does not end the session: called again right
    after, from the world and the manager the first call left, it runs
    no pipeline, changes nothing in the manager and returns the same
    transcript as the first call. The transcript of a stopped session can
    be asked for again, as often as wanted, until the session is
    removed. *)
Theorem stop_recording_twice w self g :
  let r := stop_recording convert_pcm_to_wav transcribe_file w self g in
  stop_recording convert_pcm_to_wav transcribe_file (fst (fst r)) (snd (fst r)) g
  = r.
Proof.
  cbv zeta.
  rewrite (stop_recording_eq convert_pcm_to_wav transcribe_file w self g).
  cbv zeta. cbn [fst snd].
  set (s0 := set_is_recording (session_or_init self g) false).
  pose proof (flush_all_advances convert_pcm_to_wav transcribe_file w s0) as A.
  pose proof (flush_all_drains convert_pcm_to_wav transcribe_file w s0) as D.
  destruct (drain w s0) as [w' s']. cbn [fst snd] in *.
  destruct A as (R & _).
  rewrite stop_recording_eq. cbv zeta.
  rewrite session_or_init_store.
  assert (Es : set_is_recording s' false = s').
  { assert (Hf : is_recording s' = false) by (rewrite R; reflexivity).
    rewrite <- Hf. apply set_is_recording_same. }
  rewrite Es, (flush_all_idle convert_pcm_to_wav transcribe_file w' s' D).
  cbn [fst snd].
  assert (Eg : get (sessions
                      (store_session (fst (get_or_create_session self g)) g s')) g
               = Some s') by (rewrite get_store; now rewrite Z.eqb_refl).
  rewrite (goc_fst_present _ g s' Eg), (store_same _ g s' Eg).
  reflexivity.
Qed.

(** X7. [start_recording] sets the flag and nothing else, and a second
    call changes nothing more: the manager after two calls is the manager
    after one, and the session keeps the transcript, the names and the
    buffers it had, so a session that is started again after a stop goes
    on with the transcript it had. *)
Theorem start_recording_twice self g :
  fst (start_recording (fst (start_recording self g)) g)
  = fst (start_recording self g)
  /\ snd (start_recording (fst (start_recording self g)) g)
     = snd (start_recording self g)
  /\ user_transcripts (snd (start_recording self g))
     = user_transcripts (session_or_init self g)
  /\ user_names (snd (start_recording self g))
     = user_names (session_or_init self g)
  /\ audio_buffers (snd (start_recording self g))
     = audio_buffers (session_or_init self g)
  /\ is_recording (snd (start_recording self g)) = true.
Proof.
  rewrite (start_recording_eq self g). cbn [fst snd].
  set (s1 := set_is_recording (session_or_init self g) true).
  assert (Eg : get (sessions
                      (store_session (fst (get_or_create_session self g)) g s1)) g
               = Some s1) by (rewrite get_store; now rewrite Z.eqb_refl).
  rewrite start_recording_eq, (goc_fst_present _ g s1 Eg),
    (session_or_init_get _ g s1 Eg).
  cbn [fst snd].
  assert (E1 : set_is_recording s1 true = s1) by reflexivity.
  rewrite E1, (store_same _ g s1 Eg). repeat split.
Qed.

(** X8. The last name given to a speaker is the one that counts, and it
    labels everything the speaker said: after [set_user_name] the lines
    of the transcript are those built with the new name for all the
    segments of that speaker, those transcribed before the naming too,
    and with the labels as before for everybody else. A name given twice
    leaves what giving the second alone leaves. *)
Theorem set_user_name_relabels_every_block self g u name :
  transcript_lines (session_or_init (set_user_name self g u name) g)
  = flat_map
      (fun item : Z * list string =>
         map (block (if Z.eqb (fst item) u then name
                     else display_name (session_or_init self g) (fst item)))
           (snd item))
      (user_transcripts (session_or_init self g))
  /\ forall first, set_user_name (set_user_name self g u first) g u name
                   = set_user_name self g u name.
Proof.
  split.
  - rewrite set_user_name_eq, session_or_init_store, transcript_lines_flat_map.
    cbn [user_transcripts set_user_names].
    apply flat_map_ext. intros [uid texts]. cbn [fst snd]. f_equal.
    unfold display_name. cbn [user_names set_user_names].
    now rewrite get_default_set.
  - intros first. rewrite (set_user_name_eq self g u first).
    set (s1 := set_user_names (session_or_init self g)
                 (set (user_names (session_or_init self g)) u first)).
    assert (Eg : get (sessions
                        (store_session (fst (get_or_create_session self g)) g s1)) g
                 = Some s1) by (rewrite get_store; now rewrite Z.eqb_refl).
    rewrite set_user_name_eq, (goc_fst_present _ g s1 Eg),
      (session_or_init_get _ g s1 Eg).
    rewrite (set_user_name_eq self g u name).
    unfold store_session. cbn [sessions]. rewrite set_set. f_equal. f_equal.
    unfold s1, set_user_names. cbn [user_names is_recording user_transcripts
      audio_buffers]. now rewrite set_set.
Qed.

End Twice.

(** ** A round of the flusher *)

Section Rounds.
Variable convert_pcm_to_wav : nat -> bytes -> option bytes.
Variable transcribe_file : nat -> bytes -> option string.

Local Abbreviation flusher := (_buffer_flusher convert_pcm_to_wav transcribe_file).
Local Abbreviation inner := (flush_nonempty convert_pcm_to_wav transcribe_file).

(** A round keeps the guilds and the flag of each session, and leaves a
    session that is not recording as it is. *)
Lemma round_frame w self :
  forall g,
    match get (sessions self) g with
    | None => get (sessions (snd (flusher w self))) g = None
    | Some s =>
        exists s',
          get (sessions (snd (flusher w self))) g = Some s'
          /\ is_recording s' = is_recording s
          /\ (is_recording s = false -> s' = s)
    end.
Proof.
  apply (flusher_round_invariant convert_pcm_to_wav transcribe_file
           (fun st' =>
              forall g,
                match get (sessions self) g with
                | None => get (sessions (snd st')) g = None
                | Some s =>
                    exists s',
                      get (sessions (snd st')) g = Some s'
                      /\ is_recording s' = is_recording s
                      /\ (is_recording s = false -> s' = s)
                end)).
  - intros w0 self0 g0 s0 E0 R0 HP g. cbn [snd] in *. specialize (HP g).
    rewrite get_store.
    pose proof (flush_nonempty_advances convert_pcm_to_wav transcribe_file w0 s0)
      as A.
    destruct (inner w0 s0) as [w' s']. cbn [snd]. destruct A as (R & _).
    destruct (Z.eqb_spec g g0) as [->|Hne]; [|exact HP].
    destruct (get (sessions self) g0) as [s|]; [|congruence].
    destruct HP as (s1 & E1 & R1 & F1).
    assert (s1 = s0) as -> by congruence.
    exists s'. split; [reflexivity|]. split; [congruence|].
    intros Hf. congruence.
  - intros g. cbn [snd]. destruct (get (sessions self) g) as [s|]; [|reflexivity].
    now exists s.
Qed.

Lemma round_fold_drains g :
  forall l w self,
    In g l \/ drained self g ->
    recording self g = true ->
    drained
      (snd (fold_left
              (fun (st : World * SessionManager) guild_id =>
                 match get (sessions (snd st)) guild_id with
                 | Some session =>
                     if is_recording session then
                       let (w, session) := inner (fst st) session in
                       (w, store_session (snd st) guild_id session)
                     else st
                 | None => st
                 end) l (w, self))) g.
Proof.
  induction l as [|g0 l IH]; intros w self Hu Hrec; cbn [fold_left fst snd].
  - destruct Hu as [[]|Hu]. exact Hu.
  - assert (Hskip : get (sessions self) g0 = None
                    \/ (exists s0, get (sessions self) g0 = Some s0
                                   /\ is_recording s0 = false) ->
                    In g l \/ drained self g).
    { intros Hcase. destruct Hu as [[->|Hin]|Hu]; [exfalso | now left | now right].
      unfold recording in Hrec.
      destruct Hcase as [E|(s0 & E & R)]; rewrite E in Hrec; congruence. }
    destruct (get (sessions self) g0) as [s0|] eqn:E0.
    + destruct (is_recording s0) eqn:R0.
      * pose proof (flush_nonempty_advances convert_pcm_to_wav transcribe_file w s0)
          as A.
        pose proof (flush_nonempty_drains convert_pcm_to_wav transcribe_file w s0)
          as D.
        destruct (inner w s0) as [w' s']. cbn [snd] in D. destruct A as (R & _).
        apply IH.
        -- destruct (Z.eq_dec g g0) as [->|Hne].
           ++ right. intros u. rewrite pending_store, Z.eqb_refl. apply D.
           ++ destruct Hu as [[E|Hin]|Hu]; [congruence | now left | right].
              intros u. rewrite pending_store.
              destruct (Z.eqb_spec g g0); [contradiction | apply Hu].
        -- unfold recording. rewrite get_store.
           destruct (Z.eqb_spec g g0) as [->|Hne]; [congruence | exact Hrec].
      * apply IH; [|exact Hrec]. apply Hskip. right. now exists s0.
    + apply IH; [|exact Hrec]. apply Hskip. now left.
Qed.

(** What a round leaves of each session. *)
Lemma round_drains w self g :
  match get (sessions self) g with
  | None => get (sessions (snd (flusher w self))) g = None
  | Some s =>
      exists s',
        get (sessions (snd (flusher w self))) g = Some s'
        /\ is_recording s' = is_recording s
        /\ if is_recording s
           then forall u, pending_of s' u = []
           else s' = s
  end.
Proof.
  pose proof (round_frame w self g) as F.
  destruct (get (sessions self) g) as [s|] eqn:E; [|exact F].
  destruct F as (s' & E' & R & Hf). exists s'.
  split; [exact E'|]. split; [exact R|].
  destruct (is_recording s) eqn:Rs; [|now apply Hf].
  intros u.
  assert (D : drained (snd (flusher w self)) g).
  { unfold _buffer_flusher. apply round_fold_drains.
    - left. eapply get_some_in_keys; eauto.
    - unfold recording. now rewrite E. }
  specialize (D u). unfold pending in D. now rewrite E' in D.
Qed.

(** X9. A round of the flusher thread goes through every session that is
    recording and leaves none of its buffers with bytes in it, and it
    leaves every session that is not recording exactly as it was: audio
    that a stopped session still holds is not transcribed by the thread.
    The guilds and their flags are those before the round. *)
Theorem flusher_round_drains_recording_sessions w self g :
  match get (sessions self) g with
  | None => get (sessions (snd (flusher w self))) g = None
  | Some s =>
      exists s',
        get (sessions (snd (flusher w self))) g = Some s'
        /\ is_recording s' = is_recording s
        /\ if is_recording s
           then forall u, pending_of s' u = []
           else s' = s
  end.
Proof. apply round_drains. Qed.

(** A round does nothing when no recording session holds a byte. *)
Lemma round_idle w self :
  (forall g s, get (sessions self) g = Some s ->
               is_recording s = true -> nothing_buffered s) ->
  flusher w self = (w, self).
Proof.
  intros H. unfold _buffer_flusher. generalize (keys (sessions self)) as l.
  induction l as [|g l IH]; cbn [fold_left fst snd]; [reflexivity|].
  destruct (get (sessions self) g) as [s|] eqn:E; [|exact IH].
  destruct (is_recording s) eqn:R; [|exact IH].
  rewrite (flush_nonempty_idle convert_pcm_to_wav transcribe_file w s (H g s E R)).
  rewrite (store_same self g s E). exact IH.
Qed.

(** X10. A second round right after a round finds nothing to do: it runs
    no pipeline and changes nothing. The flusher thread costs no
    conversion and no transcription while no audio comes in. *)
Theorem flusher_round_twice w self :
  let r := _buffer_flusher convert_pcm_to_wav transcribe_file w self in
  _buffer_flusher convert_pcm_to_wav transcribe_file (fst r) (snd r) = r.
Proof.
  cbv zeta.
  rewrite round_idle; [now destruct (flusher w self)|].
  intros g s' E' R' u.
  pose proof (round_drains w self g) as F.
  destruct (get (sessions self) g) as [s|]; [|congruence].
  destruct F as (s1 & E1 & R1 & D).
  assert (s1 = s') as -> by congruence.
  rewrite <- R1, R' in D. apply D.
Qed.

End Rounds.

(** ** Trimmed segments and fallback labels *)

Module StripFacts.

Lemma rstrip_nonspace c r :
  isspace c = false -> rstrip (String c r) = String c (rstrip r).
Proof. intros H. cbn [rstrip]. rewrite H. now destruct (rstrip r). Qed.

Lemma rstrip_idem s : rstrip (rstrip s) = rstrip s.
Proof.
  induction s as [|c r IH]; [reflexivity|].
  cbn [rstrip]. destruct (rstrip r) as [|a r'] eqn:Er.
  - destruct (isspace c) eqn:Ec; [reflexivity|].
    cbn [rstrip]. now rewrite Ec.
  - cbn [rstrip] in *. now rewrite IH.
Qed.

Lemma lstrip_head s :
  lstrip s = EmptyString
  \/ exists c r, lstrip s = String c r /\ isspace c = false.
Proof.
  induction s as [|c r IH]; [now left|].
  cbn [lstrip]. destruct (isspace c) eqn:Ec; [exact IH|].
  right. now exists c, r.
Qed.

(** Trimming a trimmed text changes nothing. *)
Lemma strip_idem s : strip (strip s) = strip s.
Proof.
  unfold strip. destruct (lstrip_head s) as [->|(c & r & -> & Hc)];
    [reflexivity|].
  rewrite (rstrip_nonspace c r Hc). cbn [lstrip]. rewrite Hc.
  rewrite (rstrip_nonspace c _ Hc). now rewrite rstrip_idem.
Qed.

Lemma to_int_not_nil z :
  Z.to_int z <> Decimal.Pos Decimal.Nil /\ Z.to_int z <> Decimal.Neg Decimal.Nil.
Proof.
  destruct z; simpl; split; try discriminate; intros [= H];
    now apply DecimalPos.Unsigned.to_uint_nonnil in H.
Qed.

(** Two integers with the same decimal writing are the same. *)
Lemma str_inj u u' : str u = str u' -> u = u'.
Proof.
  unfold str. intros H. apply (f_equal NilZero.int_of_string) in H.
  destruct (to_int_not_nil u) as [A B]. destruct (to_int_not_nil u') as [A' B'].
  rewrite !NilZero.isi in H by assumption.
  injection H as H. now apply DecimalZ.to_int_inj.
Qed.

End StripFacts.

Import StripFacts.

(** X3. Every segment a session holds is trimmed: after any sequence of
    calls on a new manager, in every session and for every speaker, each
    segment is left unchanged by [strip], so none begins or ends with
    whitespace. *)
Theorem segments_are_trimmed
    (convert_pcm_to_wav : nat -> bytes -> option bytes)
    (transcribe_file : nat -> bytes -> option string)
    (tr : list op) (g u : Z) :
  Forall (fun t => strip t = t)
    (segments
       (session_or_init (snd (run convert_pcm_to_wav transcribe_file tr)) g) u).
Proof.
  apply Forall_forall. intros t Hin.
  apply in_segments_has_text in Hin.
  unfold session_or_init in Hin.
  destruct (get (sessions (snd (run convert_pcm_to_wav transcribe_file tr))) g)
    as [s|] eqn:E.
  - destruct (run_texts_from_runs convert_pcm_to_wav transcribe_file tr g s u t E Hin)
      as (r & text & _ & _ & _ & ->).
    apply strip_idem.
  - now apply has_text_init in Hin.
Qed.

(** X11. The fallback labels tell speakers apart: two different
    speakers without a display name never get the same label, since the
    label is ["User "] followed by the decimal writing of the id. *)
Theorem fallback_labels_tell_speakers_apart (s : Session) (u u' : Z) :
  get (user_names s) u = None ->
  get (user_names s) u' = None ->
  u <> u' ->
  display_name s u <> display_name s u'.
Proof.
  unfold display_name, get_default. intros -> -> Hne H.
  apply Hne, str_inj. now injection H.
Qed.

(** ** The commands that end a session *)

Module InkFacts.

Local Open Scope string_scope.

Lemma append_assoc (a b c : string) : (a ++ b) ++ c = a ++ (b ++ c).
Proof. induction a as [|x a IH]; simpl; [reflexivity | now rewrite IH]. Qed.

Lemma lstrip_ink a c b :
  isspace c = false -> exists a', lstrip (a ++ String c b) = a' ++ String c b.
Proof.
  intros Hc. induction a as [|x a IH]; simpl.
  - rewrite Hc. now exists "".
  - destruct (isspace x); [exact IH | now exists (String x a)].
Qed.

Lemma rstrip_ink a c b :
  isspace c = false -> exists b', rstrip (a ++ String c b) = a ++ String c b'.
Proof.
  intros Hc. induction a as [|x a IH].
  - exists (rstrip b). now apply rstrip_nonspace.
  - destruct IH as [b' E]. exists b'.
    change (rstrip (String x a ++ String c b))
      with (match rstrip (a ++ String c b) with
            | EmptyString => if isspace x then EmptyString else String x EmptyString
            | r' => String x r'
            end).
    rewrite E. now destruct a.
Qed.

(** A text that holds a character other than whitespace is not trimmed
    down to nothing. *)
Lemma has_ink_strip s : has_ink s -> strip s <> "".
Proof.
  intros (a & c & b & -> & Hc). unfold strip.
  destruct (lstrip_ink a c b Hc) as [a' ->].
  destruct (rstrip_ink a' c b Hc) as [b' ->].
  now destruct a'.
Qed.

Lemma has_ink_app_l a b : has_ink a -> has_ink (a ++ b).
Proof.
  intros (x & c & y & -> & Hc). exists x, c, (y ++ b). split; [|exact Hc].
  now rewrite append_assoc.
Qed.

Lemma has_ink_block name t : has_ink (block name t).
Proof. exists name, ":"%char, (nl ++ t ++ nl). split; reflexivity. Qed.

Lemma has_ink_join b rest : has_ink b -> has_ink (join nl (b :: rest)).
Proof.
  intros H. destruct rest as [|b' rest]; [exact H|].
  change (join nl (b :: b' :: rest)) with (b ++ nl ++ join nl (b' :: rest)).
  now apply has_ink_app_l.
Qed.

Lemma lines_empty_no_segment s :
  transcript_lines s = [] <-> forall u, ~ has_segment s u.
Proof.
  split.
  - intros E u Hs. apply has_segment_speaker_lines in Hs.
    rewrite <- speaker_lines_erase in E.
    destruct (speaker_lines s); [contradiction | discriminate].
  - intros H. destruct (transcript_lines s) as [|line rest] eqn:E; [reflexivity|].
    destruct (line_has_text s line) as (u & t & Ht & _).
    { rewrite E. now left. }
    exfalso. apply (H u). now exists t.
Qed.

Lemma transcript_blank s :
  strip (snd (get_combined_transcript s)) = "" <-> transcript_lines s = [].
Proof.
  cbn [get_combined_transcript snd]. split.
  - intros E. destruct (transcript_lines s) as [|line rest] eqn:El; [reflexivity|].
    exfalso. revert E. apply has_ink_strip, has_ink_join.
    destruct (line_has_text s line) as (u & t & _ & ->).
    { rewrite El. now left. }
    apply has_ink_block.
  - now intros ->.
Qed.

End InkFacts.

Import InkFacts.

(** X12. The combined transcript is blank, so that the [/stop] command
    answers that no transcript is available, exactly when the session has
    no segment for any speaker. One segment is enough, even an empty one:
    its block still carries the label and the colon. *)
Theorem transcript_is_blank_iff_no_segment (s : Session) :
  (strip (snd (get_combined_transcript s)) = EmptyString
   <-> transcript_lines s = [])
  /\ (transcript_lines s = [] <-> forall u, ~ has_segment s u).
Proof. split; [apply transcript_blank | apply lines_empty_no_segment]. Qed.

(** Splits the cases of what the calls to Discord did. *)
Ltac split_attempts :=
  repeat match goal with
         | |- context [if ?b then _ else _] => destruct b
         | |- context [let (_, _) := ?x in _] => destruct x as [? ?]
         end.

Section CommandFacts.
Variable convert_pcm_to_wav : nat -> bytes -> option bytes.
Variable transcribe_file : nat -> bytes -> option string.
Variable create : list (string * string) -> completion.
Variable returns : nat -> discord_call -> bool.

Local Abbreviation stop := (stop_recording convert_pcm_to_wav transcribe_file).
Local Abbreviation stop_cmd :=
  (stop_command convert_pcm_to_wav transcribe_file create returns).

(** The transcript [stop_recording] returns is that of the session it
    leaves under the guild. *)
Lemma stop_transcript w self g :
  snd (stop w self g)
  = snd (get_combined_transcript
           (session_or_init (snd (fst (stop w self g))) g)).
Proof.
  rewrite stop_recording_eq. cbv zeta. cbn [fst snd].
  now rewrite session_or_init_store.
Qed.

Lemma summary_not_blank summary :
  strip
    match strip summary with
    | EmptyString => "No summary available."%string
    | String _ _ => summary
    end
  <> EmptyString.
Proof.
  destruct (strip summary) eqn:E; [discriminate|].
  rewrite E. discriminate.
Qed.

(** X13. When Discord answers every call, [/stop] stops the recording
    and either says that no transcript is available, without asking the
    summarizer, when the session has no segment, or else sends
    "Transcript:", then the transcript exactly as [stop_recording]
    returned it, then one summary whose text is not blank, having asked
    the summarizer once, for that transcript. *)
Theorem stop_command_when_discord_answers w self g :
  (forall n c, returns n c = true) ->
  let r := stop w self g in
  let h := stop_cmd w self g in
  world_after h = fst (fst r)
  /\ manager_after h = snd (fst r)
  /\ escaped h = false
  /\ match transcript_lines (session_or_init (snd (fst r)) g) with
     | [] =>
         attempted h = [Defer; FollowupSend "No transcript available."]
         /\ requests h = []
     | _ :: _ =>
         exists summary,
           attempted h
           = [Defer; FollowupSend "Transcript:"; ChannelSend (snd r);
              ChannelSend ("Summary:" ++ nl ++ summary)%string]
           /\ strip summary <> EmptyString
           /\ requests h = [chat_messages (snd r)]
     end.
Proof.
  intros Hret. cbv zeta.
  pose proof (stop_transcript w self g) as Ht.
  pose proof (transcript_blank (session_or_init (snd (fst (stop w self g))) g))
    as Hb.
  rewrite <- Ht in Hb.
  unfold stop_command. rewrite (Hret 0%nat Defer). cbn [negb].
  destruct (stop w self g) as [[w' self'] transcript]. cbn [fst snd] in *.
  destruct (strip transcript) as [|c0 rest0] eqn:Es.
  - rewrite (proj1 Hb eq_refl). cbn [attempt_all]. rewrite Hret. now cbn.
  - destruct (transcript_lines (session_or_init self' g)) as [|l ls] eqn:El.
    { destruct Hb as [_ Hb]. discriminate (Hb eq_refl). }
    cbn [attempt_all]. rewrite !Hret. cbn [app List.length].
    destruct transcript as [|t0 trest]; [discriminate|].
    unfold summarize_transcript.
    set (messages := chat_messages (String t0 trest)).
    destruct (create messages) as [e|[|content others]];
      cbn [attempt_all]; rewrite Hret; cbn [attempted escaped requests
        world_after manager_after app];
      (repeat split; try reflexivity; eexists; split; [reflexivity|];
       split; [apply summary_not_blank | reflexivity]).
Qed.

(** X14. Whatever Discord does, a command changes the sessions as the
    method of the manager it calls does, and its error path changes
    nothing: [/record] leaves what [start_recording] leaves, [/stop]
    leaves what [stop_recording] leaves as soon as the deferral went
    through (nothing otherwise), so a reply that fails neither undoes
    the stop nor removes the session, and [/leave] removes the session
    exactly when the bot was connected and the disconnection went
    through. The summarizer is asked once, for the transcript, exactly
    when the transcript is not blank and the deferral, the "Transcript:"
    reply and the sending of the transcript to the channel all
    returned; otherwise it is not asked at all. *)
Theorem commands_change_sessions_whatever_discord_does w self g voice_client :
  let r := stop w self g in
  let h := stop_cmd w self g in
  (world_after h, manager_after h)
  = (if returns 0 Defer then fst r else (w, self))
  /\ requests h
     = match strip (snd r) with
       | EmptyString => []
       | String _ _ =>
           if returns 0 Defer
              && returns 1 (FollowupSend "Transcript:")
              && returns 2 (ChannelSend (snd r))
           then [chat_messages (snd r)]
           else []
       end
  /\ manager_after (record_command returns w self g)
     = fst (start_recording self g)
  /\ manager_after (leave_command returns voice_client w self g)
     = (if voice_client && returns 0 Disconnect
        then remove_session self g else self)
  /\ world_after (record_command returns w self g) = w
  /\ world_after (leave_command returns voice_client w self g) = w.
Proof.
  cbv zeta. split; [|split; [|split; [|split; [|split]]]].
  - unfold stop_command. destruct (returns 0 Defer); [|reflexivity].
    cbn [negb]. destruct (stop w self g) as [[w' self'] transcript].
    cbn [fst]. split_attempts; reflexivity.
  - unfold stop_command. destruct (returns 0 Defer);
      [|now destruct (strip (snd (stop w self g)))].
    cbn [negb andb]. destruct (stop w self g) as [[w' self'] transcript].
    cbn [fst snd].
    destruct (strip transcript) eqn:Es.
    + split_attempts; reflexivity.
    + cbn [attempt_all List.length app].
      destruct (returns 1%nat (FollowupSend "Transcript:")); cbn [andb];
        [|split_attempts; reflexivity].
      destruct (returns 2%nat (ChannelSend transcript)); cbn [andb];
        [|split_attempts; reflexivity].
      destruct transcript as [|t0 trest]; [discriminate|].
      assert (Hreq : fst (summarize_transcript create (String t0 trest))
                     = [chat_messages (String t0 trest)]).
      { unfold summarize_transcript.
        now destruct (create _) as [e|[|content others]]. }
      destruct (summarize_transcript create (String t0 trest))
        as [asked summary]. cbn [fst] in Hreq. subst asked.
      cbn [attempt_all List.length app andb].
      split_attempts; reflexivity.
  - unfold record_command. split_attempts; reflexivity.
  - unfold leave_command. destruct voice_client; cbn [andb].
    + cbn [attempt_all List.length app].
      destruct (returns 0 Disconnect); split_attempts; reflexivity.
    + split_attempts; reflexivity.
  - unfold record_command. split_attempts; reflexivity.
  - unfold leave_command. split_attempts; reflexivity.
Qed.

End CommandFacts.

Section AfterLeaving.
Variable convert_pcm_to_wav : nat -> bytes -> option bytes.
Variable transcribe_file : nat -> bytes -> option string.
Variable create : list (string * string) -> completion.
Variable returns_leave returns_stop : nat -> discord_call -> bool.

Lemma leave_command_disconnected w self g :
  returns_leave 0%nat Disconnect = true ->
  manager_after (leave_command returns_leave true w self g)
  = remove_session self g
  /\ world_after (leave_command returns_leave true w self g) = w.
Proof.
  intros H. unfold leave_command. cbn [attempt_all List.length app].
  rewrite H. split_attempts; now split.
Qed.

Lemma stop_recording_removed w self g :
  stop_recording convert_pcm_to_wav transcribe_file w (remove_session self g) g
  = (w,
     store_session (store_session (remove_session self g) g Session_init) g
       Session_init,
     EmptyString).
Proof.
  assert (Hnone : get (sessions (remove_session self g)) g = None).
  { rewrite remove_session_get. now rewrite Z.eqb_refl. }
  rewrite stop_recording_eq, session_or_init_removed, (goc_absent _ g Hnone).
  reflexivity.
Qed.

(** X15. [/leave] ends the transcript. Once the bot was connected and the
    disconnection went through, the session is removed, whatever becomes
    of the reply; a [/stop] that follows runs no pipeline, asks no
    summary, answers that no transcript is available, and leaves a new,
    empty session behind under the guild. *)
Theorem stop_after_leave_finds_nothing w self g :
  returns_leave 0%nat Disconnect = true ->
  returns_stop 0%nat Defer = true ->
  let left := leave_command returns_leave true w self g in
  let h := stop_command convert_pcm_to_wav transcribe_file create returns_stop
             (world_after left) (manager_after left) g in
  get (sessions (manager_after left)) g = None
  /\ (exists rest,
        attempted h
        = Defer :: FollowupSend "No transcript available." :: rest)
  /\ requests h = []
  /\ world_after h = w
  /\ get (sessions (manager_after h)) g = Some Session_init.
Proof.
  intros Hl Hs. cbv zeta.
  destruct (leave_command_disconnected w self g Hl) as [-> ->].
  split; [rewrite remove_session_get; now rewrite Z.eqb_refl|].
  unfold stop_command. rewrite Hs. cbn [negb].
  rewrite stop_recording_removed. cbn [strip lstrip rstrip].
  cbn [attempt_all List.length app].
  assert (Hget : get (sessions
                        (store_session
                           (store_session (remove_session self g) g Session_init)
                           g Session_init)) g = Some Session_init)
    by (rewrite get_store; now rewrite Z.eqb_refl).
  split_attempts; cbn [attempted requests world_after manager_after];
    (split; [eexists; reflexivity | now repeat split]).
Qed.

End AfterLeaving.

(** ** Guilds apart, and what a stop hands over *)

Section Apart.
Variable convert_pcm_to_wav : nat -> bytes -> option bytes.
Variable transcribe_file : nat -> bytes -> option string.

Local Abbreviation flush := (_flush_buffer convert_pcm_to_wav transcribe_file).
Local Abbreviation stop := (stop_recording convert_pcm_to_wav transcribe_file).
Local Abbreviation step1 := (step convert_pcm_to_wav transcribe_file).
Local Abbreviation run1 := (run convert_pcm_to_wav transcribe_file).
Local Abbreviation run_from1 := (run_from convert_pcm_to_wav transcribe_file).

Lemma step_other_guild st o g0 g :
  target o = Some g0 -> g <> g0 ->
  get (sessions (snd (step1 st o))) g = get (sessions (snd st)) g.
Proof.
  destruct st as [w self]. cbn [snd]. intros Ht Hne.
  assert (Hb : Z.eqb g g0 = false) by now apply Z.eqb_neq.
  destruct o as [g1|g1|g1 u0 pcm|g1 u0 name|g1|g1 u0|];
    cbn [target] in Ht; try discriminate; injection Ht as ->.
  - cbn [step snd]. rewrite start_recording_eq. cbn [fst].
    now rewrite get_store_goc, Hb.
  - cbn [step]. rewrite stop_recording_eq. cbv zeta. cbn [fst snd].
    now rewrite get_store_goc, Hb.
  - cbn [step snd]. rewrite process_audio_chunk_eq. cbv zeta.
    destruct (is_recording (session_or_init self g0)).
    + now rewrite get_store_goc, Hb.
    + now rewrite goc_get, Hb.
  - cbn [step snd]. rewrite set_user_name_eq. now rewrite get_store_goc, Hb.
  - cbn [step snd]. now rewrite remove_session_get, Hb.
  - rewrite step_flush_buffer.
    destruct (get (sessions self) g0) as [s|]; cbn [snd]; [|reflexivity].
    now rewrite get_store, Hb.
Qed.

(** X16. Guilds do not touch each other through the public methods:
    after any sequence of calls made for guilds other than [g] (starts,
    stops, chunks, namings, removals, single flushes), the session of
    [g] is exactly what it was, present or absent. *)
Theorem calls_for_other_guilds_change_nothing st (tr : list op) (g : Z) :
  Forall (fun o => match target o with
                   | Some g0 => g0 <> g
                   | None => False
                   end) tr ->
  get (sessions (snd (run_from1 st tr))) g = get (sessions (snd st)) g.
Proof.
  revert st. induction tr as [|o tr IH]; intros st H; [reflexivity|].
  rewrite run_from_cons. inversion H as [|? ? Ho Htr]; subst.
  rewrite (IH _ Htr).
  destruct (target o) as [g0|] eqn:Et; [|contradiction].
  apply (step_other_guild st o g0 g Et). congruence.
Qed.

Lemma flush_all_blocks :
  forall (es : list (Z * bytes)) w s,
    NoDup (map fst es) ->
    (forall k v, In (k, v) es -> get (audio_buffers s) k = Some v) ->
    exists new,
      fst (fold_left
             (fun (st : World * Session) user_id =>
                flush (fst st) (snd st) user_id) (map fst es) (w, s))
      = w ++ new
      /\ map (fun r => (run_user r, run_pcm r)) new = waiting es.
Proof.
  induction es as [|[k v] es IH]; intros w s Hnd Hget.
  - exists []. now rewrite app_nil_r.
  - cbn [map fst fold_left snd]. inversion Hnd as [|? ? Hnotin Hnd']; subst.
    assert (Hv : pending_of s k = v).
    { unfold pending_of, get_default. rewrite (Hget k v); [reflexivity | now left]. }
    rewrite flush_eq, Hv. destruct v as [|b0 bs].
    + destruct (IH w s Hnd') as (new & E & M).
      { intros k' v' Hin. apply Hget. now right. }
      exists new. now split.
    + cbv zeta. set (o := pipeline_outcome _ _ _ _).
      set (s1 := apply_outcome _ k o).
      assert (B : audio_buffers s1 = set (audio_buffers s) k [])
        by (unfold s1; destruct o; reflexivity).
      destruct (IH (w ++ [mkRun k (b0 :: bs) o]) s1 Hnd') as (new & E & M).
      { intros k' v' Hin. rewrite B, get_set_other; [apply Hget; now right|].
        intros ->. apply Hnotin. change k with (fst (k, v')). now apply in_map. }
      exists (mkRun k (b0 :: bs) o :: new). split.
      * etransitivity; [exact E|]. now rewrite <- app_assoc.
      * cbn [map waiting filter snd run_user run_pcm]. f_equal. exact M.
Qed.

(** X17. [stop_recording] hands over, for each speaker, all the audio
    that is waiting as one block: on the manager of any run, the runs of
    the pipeline it adds are, in order, exactly the buffers of the session
    that hold bytes, in the order of the buffers, which is the order in
    which the speakers first sent a chunk. Chunks that came in since the
    last flush are transcribed together, never one by one. *)
Theorem stop_hands_each_waiting_buffer_once (tr : list op) (g : Z) :
  let st := run1 tr in
  exists new,
    fst (fst (stop (fst st) (snd st) g)) = fst st ++ new
    /\ map (fun r => (run_user r, run_pcm r)) new
       = waiting (audio_buffers (session_or_init (snd st) g)).
Proof.
  cbv zeta. pose proof (run_manager_wf convert_pcm_to_wav transcribe_file tr) as Hm.
  destruct (run1 tr) as [w self]. cbn [fst snd] in *.
  rewrite stop_recording_eq. cbv zeta. cbn [fst].
  destruct (manager_wf_goc self g Hm) as [_ (_ & _ & Hb)].
  unfold flush_all. cbn [audio_buffers set_is_recording]. unfold keys.
  apply flush_all_blocks.
  - exact Hb.
  - intros k v Hin. cbn [audio_buffers set_is_recording].
    now apply wf_in_get.
Qed.

End Apart.

(** ** A stopped session *)

Section Asleep.
Variable convert_pcm_to_wav : nat -> bytes -> option bytes.
Variable transcribe_file : nat -> bytes -> option string.

Local Abbreviation flush := (_flush_buffer convert_pcm_to_wav transcribe_file).
Local Abbreviation flusher := (_buffer_flusher convert_pcm_to_wav transcribe_file).
Local Abbreviation stop := (stop_recording convert_pcm_to_wav transcribe_file).
Local Abbreviation step1 := (step convert_pcm_to_wav transcribe_file).
Local Abbreviation run1 := (run convert_pcm_to_wav transcribe_file).
Local Abbreviation run_from1 := (run_from convert_pcm_to_wav transcribe_file).

Lemma recording_store self g0 s g :
  recording (store_session self g0 s) g
  = if Z.eqb g g0 then is_recording s else recording self g.
Proof. unfold recording. rewrite get_store. now destruct (Z.eqb g g0). Qed.

Lemma recording_goc self g0 g :
  recording (fst (get_or_create_session self g0)) g = recording self g.
Proof.
  unfold recording. rewrite goc_get.
  destruct (Z.eqb_spec g g0) as [->|]; [|reflexivity].
  unfold session_or_init. now destruct (get (sessions self) g0).
Qed.

(** Storing under [g0] a session that records as before, or holds no
    byte, keeps every guild recording or drained. *)
Lemma awake_or_drained_store self g0 s' :
  (forall g, recording self g = true \/ drained self g) ->
  (is_recording s' = true \/ forall u, pending_of s' u = []) ->
  forall g, recording (store_session self g0 s') g = true
            \/ drained (store_session self g0 s') g.
Proof.
  intros H Hs g. rewrite recording_store. unfold drained.
  destruct (Z.eqb_spec g g0) as [->|Hne].
  - destruct Hs as [R|D]; [now left | right].
    intros u. rewrite pending_store, Z.eqb_refl. apply D.
  - destruct (H g) as [R|D]; [now left | right].
    intros u. rewrite pending_store.
    destruct (Z.eqb_spec g g0); [contradiction | apply D].
Qed.

Lemma awake_or_drained_goc self g0 :
  (forall g, recording self g = true \/ drained self g) ->
  forall g, recording (fst (get_or_create_session self g0)) g = true
            \/ drained (fst (get_or_create_session self g0)) g.
Proof.
  intros H g. rewrite recording_goc. destruct (H g) as [R|D]; [now left | right].
  intros u. rewrite pending_goc. apply D.
Qed.

(** What is recording or drained before a flush is so after it. *)
Lemma advances_awake_or_drained w s w' s' :
  advances (w, s) (w', s') ->
  (is_recording s = true \/ forall u, pending_of s u = []) ->
  is_recording s' = true \/ forall u, pending_of s' u = [].
Proof.
  intros (R & _ & _ & new & _ & C & _) [Hr|Hd]; [left; congruence | right].
  intros u. specialize (C u). rewrite Hd in C. now apply app_eq_nil in C.
Qed.

Lemma session_awake_or_drained self g :
  (forall g, recording self g = true \/ drained self g) ->
  is_recording (session_or_init self g) = true
  \/ forall u, pending_of (session_or_init self g) u = [].
Proof.
  intros H. destruct (H g) as [R|D].
  - left. now rewrite <- recording_session_or_init.
  - right. intros u. rewrite <- pending_session_or_init. apply D.
Qed.

Lemma step_awake_or_drained st o :
  (forall g, recording (snd st) g = true \/ drained (snd st) g) ->
  forall g, recording (snd (step1 st o)) g = true
            \/ drained (snd (step1 st o)) g.
Proof.
  destruct st as [w self]. cbn [snd]. intros H.
  destruct o as [g0|g0|g0 u0 pcm|g0 u0 name|g0|g0 u0|].
  - cbn [step snd]. rewrite start_recording_eq. cbn [fst].
    apply awake_or_drained_store; [now apply awake_or_drained_goc | now left].
  - cbn [step]. rewrite stop_recording_eq. cbv zeta. cbn [fst snd].
    apply awake_or_drained_store; [now apply awake_or_drained_goc | right].
    intros u. apply flush_all_drains.
  - cbn [step snd]. rewrite process_audio_chunk_eq. cbv zeta.
    destruct (is_recording (session_or_init self g0)) eqn:R.
    + apply awake_or_drained_store; [now apply awake_or_drained_goc | now left].
    + now apply awake_or_drained_goc.
  - cbn [step snd]. rewrite set_user_name_eq.
    apply awake_or_drained_store; [now apply awake_or_drained_goc|].
    apply (session_awake_or_drained self g0 H).
  - cbn [step snd]. intros g. unfold recording, drained, pending.
    rewrite remove_session_get.
    destruct (Z.eqb g g0); [now right | apply H].
  - rewrite step_flush_buffer.
    destruct (get (sessions self) g0) as [s|] eqn:E; cbn [snd]; [|exact H].
    apply awake_or_drained_store; [exact H|].
    pose proof (flush_advances convert_pcm_to_wav transcribe_file w s u0) as A.
    destruct (flush w s u0) as [w' s']. cbn [snd].
    apply (advances_awake_or_drained w s w' s' A).
    rewrite <- (session_or_init_get self g0 s E).
    apply (session_awake_or_drained self g0 H).
  - cbn [step].
    apply (flusher_invariant convert_pcm_to_wav transcribe_file
             (fun st' => forall g, recording (snd st') g = true
                                   \/ drained (snd st') g)); [|exact H].
    intros w0 self0 g0 s w' s' E A H0. cbn [snd] in *.
    apply awake_or_drained_store; [exact H0|].
    apply (advances_awake_or_drained w0 s w' s' A).
    rewrite <- (session_or_init_get self0 g0 s E).
    apply (session_awake_or_drained self0 g0 H0).
Qed.

(** X18. Audio never waits in a session that is not recording: after any
    sequence of calls on a new manager, every guild is recording or has
    all its buffers empty. A chunk is only kept while recording, and the
    one call that clears the flag, [stop_recording], flushes every
    buffer before it returns; so the flusher, which passes over the
    sessions that are not recording, leaves no audio behind in them. *)
Theorem no_audio_waits_in_a_stopped_session (tr : list op) (g : Z) :
  recording (snd (run1 tr)) g = true \/ drained (snd (run1 tr)) g.
Proof.
  revert g. induction tr as [|o tr IH] using rev_ind.
  - intros g. now right.
  - rewrite run_snoc. now apply step_awake_or_drained.
Qed.

Lemma step_asleep st o g s :
  get (sessions (snd st)) g = Some s ->
  is_recording s = false ->
  nothing_buffered s ->
  leaves_asleep g o ->
  get (sessions (snd (step1 st o))) g = Some s.
Proof.
  destruct st as [w self]. cbn [snd]. intros E R D Ho.
  assert (Hs : session_or_init self g = s) by now apply session_or_init_get.
  assert (Hother : forall g0, target o = Some g0 -> g0 <> g ->
                              get (sessions (snd (step1 (w, self) o))) g = Some s).
  { intros g0 Ht Hne. rewrite (step_other_guild convert_pcm_to_wav
                                 transcribe_file (w, self) o g0 g Ht); auto. }
  destruct o as [g0|g0|g0 u0 pcm|g0 u0 name|g0|g0 u0|]; cbn [leaves_asleep] in Ho;
    try (apply (Hother g0 eq_refl Ho)).
  - destruct (Z.eq_dec g0 g) as [->|Hne]; [|now apply (Hother g0)].
    cbn [step]. rewrite stop_recording_eq. cbv zeta. cbn [fst snd].
    rewrite Hs.
    assert (Es : set_is_recording s false = s)
      by (rewrite <- R; apply set_is_recording_same).
    rewrite Es, (flush_all_idle convert_pcm_to_wav transcribe_file w s D).
    cbn [snd]. rewrite get_store. now rewrite Z.eqb_refl.
  - destruct (Z.eq_dec g0 g) as [->|Hne]; [|now apply (Hother g0)].
    cbn [step snd]. rewrite process_audio_chunk_eq. cbv zeta.
    rewrite Hs, R, goc_get, Z.eqb_refl. now rewrite Hs.
  - destruct (Z.eq_dec g0 g) as [->|Hne]; [|now apply (Hother g0)].
    rewrite step_flush_buffer, E. cbn [snd].
    rewrite (flush_idle convert_pcm_to_wav transcribe_file w s u0 (D u0)).
    cbn [snd]. rewrite get_store. now rewrite Z.eqb_refl.
  - cbn [step].
    pose proof (round_drains convert_pcm_to_wav transcribe_file w self g) as F.
    rewrite E in F. destruct F as (s' & E' & _ & F). rewrite R in F.
    now rewrite E', F.
Qed.

(** X19. A stopped session is frozen. When the session of [g] is not
    recording and holds no audio (as [stop_recording] leaves it), no
    sequence of late chunks, further stops, flushes, rounds of the
    flusher and calls for other guilds changes anything in it: the
    transcript a later [stop_recording] returns can only change after a
    start, a naming or a removal for that guild. *)
Theorem stopped_session_is_frozen st (tr : list op) (g : Z) (s : Session) :
  get (sessions (snd st)) g = Some s ->
  is_recording s = false ->
  nothing_buffered s ->
  Forall (leaves_asleep g) tr ->
  get (sessions (snd (run_from1 st tr))) g = Some s.
Proof.
  intros E R D H. revert st E.
  induction H as [|o tr Ho Htr IH]; intros st E; [exact E|].
  rewrite run_from_cons. apply IH.
  now apply step_asleep.
Qed.

End Asleep.

(** ** What [stop_recording] reports *)

Lemma occurs_in_join sep l x : In x l -> occurs_in x (join sep l).
Proof.
  induction l as [|x0 r IH]; [contradiction|].
  intros Hin. destruct r as [|y r'].
  - destruct Hin as [->|[]]. exists EmptyString, EmptyString.
    cbn [join append]. clear. induction x as [|c x IH]; [reflexivity|].
    cbn [append]. now rewrite <- IH.
  - change (join sep (x0 :: y :: r'))
      with (x0 ++ sep ++ join sep (y :: r'))%string.
    destruct Hin as [->|Hin].
    + now exists EmptyString, (sep ++ join sep (y :: r'))%string.
    + destruct (IH Hin) as (pre & post & E). rewrite E.
      exists (x0 ++ sep ++ pre)%string, post.
      now rewrite !InkFacts.append_assoc.
Qed.

Lemma in_segments_occurs s u t :
  In t (segments s u) ->
  occurs_in (block (display_name s u) t) (join nl (transcript_lines s)).
Proof.
  intros H. apply occurs_in_join, text_block_in_lines.
  now apply in_segments_has_text.
Qed.

Section Reports.
Variable convert_pcm_to_wav : nat -> bytes -> option bytes.
Variable transcribe_file : nat -> bytes -> option string.

Local Abbreviation flush := (_flush_buffer convert_pcm_to_wav transcribe_file).
Local Abbreviation stop := (stop_recording convert_pcm_to_wav transcribe_file).
Local Abbreviation outcome_at :=
  (pipeline_outcome convert_pcm_to_wav transcribe_file).

(** The segments after one flush: those of the flushed speaker gain what
    the run said, when there was a run. *)
Lemma segments_after_flush w s u0 u :
  segments (snd (flush w s u0)) u
  = segments s u
    ++ (if Z.eqb u u0 then
          match pending_of s u0 with
          | [] => []
          | _ :: _ => said (outcome_at (List.length w) (pending_of s u0))
          end
        else []).
Proof.
  rewrite flush_eq. destruct (pending_of s u0) as [|b0 bs]; cbn [snd].
  - destruct (Z.eqb u u0); now rewrite app_nil_r.
  - cbv zeta. destruct (outcome_at _ _) as [| |text]; cbn [apply_outcome said].
    + destruct (Z.eqb u u0); now rewrite app_nil_r.
    + destruct (Z.eqb u u0); now rewrite app_nil_r.
    + rewrite segments_append.
      destruct (Z.eqb_spec u u0) as [->|]; [reflexivity | now rewrite app_nil_r].
Qed.

Lemma world_after_flush w s u0 :
  fst (flush w s u0)
  = w ++ match pending_of s u0 with
         | [] => []
         | _ :: _ =>
             [mkRun u0 (pending_of s u0)
                (outcome_at (List.length w) (pending_of s u0))]
         end.
Proof.
  rewrite flush_eq. destruct (pending_of s u0) as [|b0 bs]; cbn [fst].
  - now rewrite app_nil_r.
  - reflexivity.
Qed.

(** The loop of [stop_recording] over the speakers [l]: a speaker with
    nothing waiting, or who is not visited, keeps their segments; a
    visited speaker with bytes waiting has one run, on the whole block,
    and gains what that run said. *)
Lemma flush_loop_reports l :
  forall w s,
    let r := fold_left
               (fun (st : World * Session) u => flush (fst st) (snd st) u)
               l (w, s) in
    exists new,
      fst r = w ++ new
      /\ (forall u, pending_of s u = [] \/ ~ In u l ->
                    segments (snd r) u = segments s u)
      /\ (forall u, In u l -> pending_of s u <> [] ->
            exists i,
              nth_error new i
              = Some (mkRun u (pending_of s u)
                        (outcome_at (List.length w + i) (pending_of s u)))
              /\ segments (snd r) u
                 = segments s u
                   ++ said (outcome_at (List.length w + i) (pending_of s u))).
Proof.
  induction l as [|u0 l IH]; intros w s; cbv zeta.
  - exists []. cbn [fold_left fst snd]. rewrite app_nil_r.
    split; [reflexivity|]. split; [reflexivity|]. intros u [].
  - cbn [fold_left fst snd].
    pose proof (world_after_flush w s u0) as Ew.
    pose proof (segments_after_flush w s u0) as Es.
    pose proof (pending_after_flush convert_pcm_to_wav transcribe_file w s u0)
      as Ep.
    destruct (flush w s u0) as [w1 s1]. cbn [fst snd] in Ew, Es, Ep.
    destruct (IH w1 s1) as (new1 & E1 & A1 & B1). cbv zeta in E1, A1, B1.
    set (r := fold_left _ l (w1, s1)) in *.
    destruct (pending_of s u0) as [|b0 bs] eqn:Eb.
    + (* nothing waiting for [u0]: no run *)
      rewrite app_nil_r in Ew. subst w1.
      assert (Es' : forall u, segments s1 u = segments s u).
      { intros u. rewrite Es. destruct (Z.eqb u u0); now rewrite app_nil_r. }
      assert (Ep' : forall u, pending_of s1 u = pending_of s u).
      { intros u. rewrite Ep. destruct (Z.eqb_spec u u0) as [->|]; congruence. }
      exists new1. split; [exact E1|]. split.
      * intros u [Hu|Hu].
        -- rewrite A1, Es'; [reflexivity | left; now rewrite Ep'].
        -- rewrite A1, Es'; [reflexivity | right; intros Hin; apply Hu; now right].
      * intros u [<-|Hin] Hne; [congruence|].
        rewrite <- Ep' in Hne. destruct (B1 u Hin Hne) as (i & Hi & Hs).
        exists i. now rewrite <- Ep', <- Es'.
    + (* one run for [u0] *)
      set (r0 := mkRun u0 (b0 :: bs) (outcome_at (List.length w) (b0 :: bs))) in *.
      subst w1. exists (r0 :: new1). split.
      { rewrite E1, <- app_assoc. reflexivity. }
      assert (Hlen : forall i, (List.length (w ++ [r0]) + i
                                = List.length w + S i)%nat).
      { intros i. rewrite length_app. cbn [List.length]. lia. }
      split.
      * intros u Hu.
        assert (Hne : u <> u0).
        { intros ->. destruct Hu as [Hu|Hu]; [congruence | apply Hu; now left]. }
        rewrite A1.
        -- rewrite Es. destruct (Z.eqb_spec u u0); [contradiction|].
           now rewrite app_nil_r.
        -- rewrite Ep. destruct (Z.eqb_spec u u0); [contradiction|].
           destruct Hu as [Hu|Hu]; [now left | right].
           intros Hin. apply Hu. now right.
      * intros u Hin Hne. destruct (Z.eq_dec u u0) as [->|Hneq].
        -- exists 0%nat. rewrite Nat.add_0_r, Eb. split; [reflexivity|].
           rewrite A1.
           ++ rewrite Es, Z.eqb_refl. reflexivity.
           ++ left. now rewrite Ep, Z.eqb_refl.
        -- destruct Hin as [->|Hin]; [contradiction|].
           assert (Ep' : pending_of s1 u = pending_of s u).
           { rewrite Ep. now destruct (Z.eqb_spec u u0). }
           assert (Es' : segments s1 u = segments s u).
           { rewrite Es. destruct (Z.eqb_spec u u0); [contradiction|].
             now rewrite app_nil_r. }
           rewrite <- Ep' in Hne. destruct (B1 u Hin Hne) as (i & Hi & Hs).
           exists (S i). rewrite Ep', Es', Hlen in *. now split.
Qed.

(** What [stop_recording] reports, speaker by speaker, in terms of what
    the collaborators return at the run that takes the speaker's block. *)
Lemma stop_recording_reports w self g new :
  let s := session_or_init self g in
  let r := stop w self g in
  let s' := session_or_init (snd (fst r)) g in
  fst (fst r) = w ++ new ->
  snd r = join nl (transcript_lines s')
  /\ (forall u, pending self g u = [] -> segments s' u = segments s u)
  /\ (forall u, pending self g u <> [] ->
        exists i,
          nth_error new i
          = Some (mkRun u (pending self g u)
                    (outcome_at (List.length w + i) (pending self g u)))
          /\ segments s' u
             = segments s u
               ++ said (outcome_at (List.length w + i) (pending self g u))).
Proof.
  cbv zeta. rewrite stop_recording_eq. cbv zeta. cbn [fst snd].
  rewrite session_or_init_store.
  set (s0 := set_is_recording (session_or_init self g) false).
  assert (Hp : forall u, pending_of s0 u = pending self g u)
    by (intros u; symmetry; apply pending_session_or_init).
  pose proof (flush_loop_reports (keys (audio_buffers s0)) w s0) as H.
  cbv zeta in H. destruct H as (new' & E & A & B).
  fold (flush_all convert_pcm_to_wav transcribe_file w s0) in E, A, B.
  intros Enew. rewrite E in Enew. apply app_inv_head in Enew. subst new'.
  split; [reflexivity|]. split.
  - intros u Hu. rewrite A; [reflexivity | left; now rewrite Hp].
  - intros u Hu. rewrite <- Hp in Hu.
    destruct (B u (pending_nonempty_key s0 u Hu) Hu) as (i & Hi & Hs).
    exists i. rewrite Hp in Hi, Hs. now split.
Qed.

(** C2. [stop_recording] leaves under [g] a session whose flag is false
    and in which no buffer holds a byte, the speakers with a buffer
    being those before; what it handed to the pipeline for each speaker
    is exactly what was waiting in that speaker's buffer. The string it
    returns is the combined transcript of the session it leaves, and in
    that string every block the transcript had before the call still
    occurs. A speaker with nothing waiting keeps their segments. A
    speaker with bytes waiting has one run of the pipeline on these
    bytes, and the speaker's segments are those before followed by what
    that run yields from the two collaborators: when the conversion and
    the transcription of that run both return, the trimmed text is the
    speaker's last segment and its block, under the speaker's label,
    occurs in the returned string. *)
Theorem C2_stop_drains_and_reports w self g :
  let s := session_or_init self g in
  let r := stop_recording convert_pcm_to_wav transcribe_file w self g in
  exists s' new,
    fst r = (w ++ new, store_session (fst (get_or_create_session self g)) g s')
    /\ get (sessions (snd (fst r))) g = Some s'
    /\ is_recording s' = false
    /\ keys (audio_buffers s') = buffer_keys self g
    /\ (forall u b, get (audio_buffers s') u = Some b -> b = [])
    /\ (forall u, List.concat (handed new u) = pending self g u)
    /\ snd r = snd (get_combined_transcript s')
    /\ snd r = combinedTranscript s'
    /\ (forall line, In line (transcript_lines s) -> occurs_in line (snd r))
    /\ (forall u, pending self g u = [] -> segments s' u = segments s u)
    /\ (forall u,
          pending self g u <> [] ->
          exists i,
            let n := (List.length w + i)%nat in
            nth_error new i
            = Some (mkRun u (pending self g u)
                      (pipeline_outcome convert_pcm_to_wav transcribe_file n
                         (pending self g u)))
            /\ segments s' u
               = segments s u
                 ++ said (pipeline_outcome convert_pcm_to_wav transcribe_file n
                            (pending self g u))
            /\ forall wav text,
                 convert_pcm_to_wav n (pending self g u) = Some wav ->
                 transcribe_file n wav = Some text ->
                 segments s' u = segments s u ++ [strip text]
                 /\ occurs_in (block (display_name s' u) (strip text)) (snd r)).
Proof.
  cbv zeta.
  destruct (stop_recording_facts convert_pcm_to_wav transcribe_file w self g)
    as (s' & new & E & R & N & K & D & C & _ & M & _ & _).
  assert (Hget : get (sessions (snd (fst (stop w self g)))) g = Some s').
  { rewrite E. cbn [fst snd]. rewrite get_store_goc. now rewrite Z.eqb_refl. }
  assert (Hs' : session_or_init (snd (fst (stop w self g))) g = s')
    by now apply session_or_init_get.
  assert (Hw : fst (fst (stop w self g)) = w ++ new) by now rewrite E.
  destruct (stop_recording_reports w self g new Hw) as (J & A & B).
  cbv zeta in J, A, B. rewrite Hs' in J, A, B.
  exists s', new.
  split; [now rewrite E|]. split; [exact Hget|]. split; [exact R|]. split.
  { rewrite K. unfold buffer_keys, session_or_init.
    now destruct (get (sessions self) g). }
  split.
  { intros u b Hb. specialize (D u). unfold pending_of, get_default in D.
    now rewrite Hb in D. }
  split; [exact C|]. split; [exact J|]. split.
  { rewrite J, transcript_lines_labelled. apply join_blocks. }
  split.
  { intros line Hin. rewrite J. apply occurs_in_join.
    apply line_has_text in Hin as (u & t & Ht & ->).
    assert (Hn : display_name s' u = display_name (session_or_init self g) u)
      by (unfold display_name; now rewrite N).
    rewrite <- Hn. apply text_block_in_lines. auto. }
  split; [exact A|].
  intros u Hu. destruct (B u Hu) as (i & Hi & Hs). exists i.
  split; [exact Hi|]. split; [exact Hs|].
  intros wav text Hc Ht.
  assert (Ho : outcome_at (List.length w + i) (pending self g u)
               = Transcribed text)
    by (unfold pipeline_outcome; now rewrite Hc, Ht).
  rewrite Ho in Hs. cbn [said] in Hs. split; [exact Hs|].
  rewrite J. apply in_segments_occurs. rewrite Hs. apply in_or_app.
  right. now left.
Qed.


End Reports.

(** ** These properties at a small call *)

Lemma segments_only_grow_at_stop_and_start :
  let st : World * SessionManager := ([], Example.manager_of Example.talking) in
  let tr := [StopRecording Example.guild; StartRecording Example.guild] in
  (exists extra,
     segments
       (session_or_init
          (snd (run_from Example.converts Example.hears_hello st tr))
          Example.guild) 7
     = segments (session_or_init (snd st) Example.guild) 7 ++ extra)
  /\ (get (sessions (snd st)) Example.guild <> None ->
      get (sessions (snd (run_from Example.converts Example.hears_hello st tr)))
        Example.guild <> None).
Proof.
  cbv zeta.
  apply (segments_only_grow Example.converts Example.hears_hello
           ([], Example.manager_of Example.talking)
           [StopRecording Example.guild; StartRecording Example.guild]
           Example.guild 7%Z).
  intros [H|[H|[]]]; discriminate.
Defined.

Lemma buffers_are_never_dropped_at_stop_and_start :
  let st : World * SessionManager := ([], Example.manager_of Example.talking) in
  let tr := [StopRecording Example.guild; StartRecording Example.guild] in
  exists extra,
    buffer_keys (snd (run_from Example.converts Example.hears_hello st tr))
      Example.guild
    = buffer_keys (snd st) Example.guild ++ extra.
Proof.
  cbv zeta.
  apply (buffers_are_never_dropped Example.converts Example.hears_hello
           ([], Example.manager_of Example.talking)
           [StopRecording Example.guild; StartRecording Example.guild]
           Example.guild).
  intros [H|[H|[]]]; discriminate.
Defined.

Lemma fallback_labels_tell_speakers_apart_at_seven_and_eight :
  display_name Session_init 7 <> display_name Session_init 8.
Proof.
  apply (fallback_labels_tell_speakers_apart Session_init 7%Z 8%Z);
    [reflexivity | reflexivity | discriminate].
Defined.

Lemma stop_command_when_discord_answers_at_talking :
  let create : list (string * string) -> completion :=
    fun _ => CompletionChoices [" a greeting "%string] in
  let returns : nat -> discord_call -> bool := fun _ _ => true in
  let self := Example.manager_of Example.talking in
  let r := stop_recording Example.converts Example.hears_hello [] self
             Example.guild in
  let h := stop_command Example.converts Example.hears_hello create returns []
             self Example.guild in
  world_after h = fst (fst r)
  /\ manager_after h = snd (fst r)
  /\ escaped h = false
  /\ match transcript_lines (session_or_init (snd (fst r)) Example.guild) with
     | [] =>
         attempted h = [Defer; FollowupSend "No transcript available."]
         /\ requests h = []
     | _ :: _ =>
         exists summary,
           attempted h
           = [Defer; FollowupSend "Transcript:"; ChannelSend (snd r);
              ChannelSend ("Summary:" ++ nl ++ summary)%string]
           /\ strip summary <> EmptyString
           /\ requests h = [chat_messages (snd r)]
     end.
Proof.
  cbv zeta.
  exact (stop_command_when_discord_answers
           Example.converts Example.hears_hello
           (fun _ => CompletionChoices [" a greeting "%string])
           (fun _ _ => true) [] (Example.manager_of Example.talking)
           Example.guild (fun _ _ => eq_refl)).
Defined.

Lemma stop_after_leave_finds_nothing_at_talking :
  let create : list (string * string) -> completion :=
    fun _ => CompletionChoices [] in
  let returns : nat -> discord_call -> bool := fun _ _ => true in
  let left := leave_command returns true [] (Example.manager_of Example.talking)
                Example.guild in
  let h := stop_command Example.converts Example.hears_hello create returns
             (world_after left) (manager_after left) Example.guild in
  get (sessions (manager_after left)) Example.guild = None
  /\ (exists rest,
        attempted h
        = Defer :: FollowupSend "No transcript available." :: rest)
  /\ requests h = []
  /\ world_after h = []
  /\ get (sessions (manager_after h)) Example.guild = Some Session_init.
Proof.
  cbv zeta.
  exact (stop_after_leave_finds_nothing
           Example.converts Example.hears_hello
           (fun _ => CompletionChoices []) (fun _ _ => true) (fun _ _ => true)
           [] (Example.manager_of Example.talking) Example.guild
           eq_refl eq_refl).
Defined.

Lemma calls_for_other_guilds_change_nothing_at_guild_two :
  let st : World * SessionManager := ([], Example.manager_of Example.talking) in
  let tr := [StartRecording 2; ProcessAudioChunk 2 7 Example.chunk;
             StopRecording 2; RemoveSession 2] in
  get (sessions (snd (run_from Example.converts Example.hears_hello st tr)))
    Example.guild
  = get (sessions (snd st)) Example.guild.
Proof.
  cbv zeta.
  apply (calls_for_other_guilds_change_nothing
           Example.converts Example.hears_hello
           ([], Example.manager_of Example.talking)
           [StartRecording 2; ProcessAudioChunk 2 7 Example.chunk;
            StopRecording 2; RemoveSession 2] Example.guild).
  repeat (constructor; [cbn; discriminate|]). constructor.
Defined.

Lemma stopped_session_is_frozen_at_quiet :
  let s := set_is_recording Example.quiet false in
  let st : World * SessionManager := ([], Example.manager_of s) in
  let tr := [ProcessAudioChunk Example.guild 7 Example.chunk; FlusherRound;
             StopRecording Example.guild; FlushBuffer Example.guild 7;
             StartRecording 2] in
  get (sessions (snd (run_from Example.converts Example.hears_hello st tr)))
    Example.guild
  = Some s.
Proof.
  cbv zeta.
  apply (stopped_session_is_frozen Example.converts Example.hears_hello
           ([], Example.manager_of (set_is_recording Example.quiet false))
           [ProcessAudioChunk Example.guild 7 Example.chunk; FlusherRound;
            StopRecording Example.guild; FlushBuffer Example.guild 7;
            StartRecording 2]
           Example.guild (set_is_recording Example.quiet false)).
  - reflexivity.
  - reflexivity.
  - intros u. unfold get_default, set_is_recording, Example.quiet.
    cbn [audio_buffers get]. now destruct (Z.eqb u 7).
  - repeat (constructor; [cbn; try exact I; discriminate|]). constructor.
Defined.


Lemma C2_stop_drains_and_reports_at_talking :
  let r := stop_recording Example.converts Example.hears_hello []
             (Example.manager_of Example.talking) Example.guild in
  exists s',
    get (sessions (snd (fst r))) Example.guild = Some s'
    /\ is_recording s' = false
    /\ (forall u b, get (audio_buffers s') u = Some b -> b = [])
    /\ segments s' 7 = ["hello"%string]
    /\ occurs_in (block (display_name s' 7) "hello") (snd r).
Proof.
  cbv zeta.
  destruct (C2_stop_drains_and_reports
              Example.converts Example.hears_hello []
              (Example.manager_of Example.talking) Example.guild)
    as (s' & new & _ & G & R & _ & D & _ & _ & _ & _ & _ & B).
  assert (Hne : pending (Example.manager_of Example.talking) Example.guild 7
                <> []) by discriminate.
  destruct (B 7%Z Hne) as (i & _ & _ & Ht). cbv zeta in Ht.
  destruct (Ht Example.chunk " hello "%string eq_refl eq_refl) as [Hs Ho].
  exists s'. split; [exact G|]. split; [exact R|]. split; [exact D|].
  split; [exact Hs | exact Ho].
Defined.

